(** * x402nano/helper: a shallow embedding of [src/typescript/index.ts]

    The development follows the source file top-down: the JavaScript
    values the code manipulates, the arbitrary-precision balance
    arithmetic, the configuration validators, the [Helper] class as a
    state-passing machine over its configuration object, and the
    asynchronous block-generation pipeline ([nanoRpcCall],
    [workGenerate], [createBlock], [generateSendBlock]) as computations
    that log every interaction with the outside world. *)

From Stdlib Require Import ZArith NArith List Bool Ascii String Lia.
From Stdlib Require Import DecimalString DecimalFacts DecimalPos DecimalN.
From stdpp Require Import base option gmap strings.

Import ListNotations.
Local Open Scope string_scope.

(** ** Decimal strings *)

(** The value of a decimal literal: [None] for the empty string and for
    any string with a character outside [0-9]. *)
Definition decimal_value (s : string) : option N :=
  match NilZero.uint_of_string s with
  | Some d => Some (N.of_uint d)
  | None => None
  end.

(** Plain decimal rendering of a natural number. *)
Definition decimal_of_N (n : N) : string :=
  NilZero.string_of_uint (N.to_uint n).

Definition is_digit (c : ascii) : bool :=
  let n := nat_of_ascii c in (48 <=? n)%nat && (n <=? 57)%nat.

Fixpoint all_digits (s : string) : bool :=
  match s with
  | EmptyString => true
  | String c s' => is_digit c && all_digits s'
  end.

(** [STRING_INT] of the common package: "a string that contains only
    digits (non-negative integer)". *)
Definition STRING_INT (s : string) : bool :=
  match s with
  | EmptyString => false
  | _ => all_digits s
  end.

(** Canonical form: digits only, and no leading zero except for ["0"]
    itself.  A canonical string has no sign and no exponent marker. *)
Definition canonical_decimal (s : string) : bool :=
  match s with
  | EmptyString => false
  | String "0" rest => match rest with EmptyString => true | _ => false end
  | _ => all_digits s
  end.

(** ** bignumber.js, on integer literals

    [BigNumber] is an external library.  Its values are modelled on the
    integers and NaN, which is what [new BigNumber(s)] yields on an
    optionally signed digit string and on a string that is no number at
    all; fractional and exponent literals are outside [StringInt] and are
    not modelled (they are mapped to NaN).  [minus] is exact in
    bignumber.js, [lt] is false on NaN, and [toFixed()] prints plain
    notation without exponent. *)
Module BigNumber.

Inductive t : Type :=
| NaN
| Int (z : Z).

Definition new (s : string) : t :=
  match s with
  | String "-" rest =>
      match decimal_value rest with
      | Some n => Int (- Z.of_N n)
      | None => NaN
      end
  | _ =>
      match decimal_value s with
      | Some n => Int (Z.of_N n)
      | None => NaN
      end
  end.

Definition minus (x : t) (y : string) : t :=
  match x, new y with
  | Int a, Int b => Int (a - b)
  | _, _ => NaN
  end.

Definition lt (x : t) (k : Z) : bool :=
  match x with
  | Int a => (a <? k)%Z
  | NaN => false
  end.

Definition toFixed (x : t) : string :=
  match x with
  | NaN => "NaN"
  | Int z =>
      if (z <? 0)%Z then "-" ++ decimal_of_N (Z.abs_N z)
      else decimal_of_N (Z.to_N z)
  end.

End BigNumber.

(** ** Thrown values and error codes *)

(** Modelled from the spec: [common.ts] holds the error codes and is not
    among the sources; the values are those of the README's error-code
    table. *)
Definition ERROR_CONFIG : string := "error_config".
Definition ERROR_BLOCK_GENERATION : string := "error_block_generation".
Definition ERROR_NANO_WORK_GENERATION : string := "error_nano_work_generation".
Definition ERROR_NANO_RPC_CONNECTION : string := "error_nano_rpc_connection".
Definition ERROR_INSUFFICIENT_NANO_BALANCE : string := "error_insufficient_nano_balance".

(** [`[${code}] ${text}`] *)
Definition tagged (code text : string) : string :=
  "[" ++ code ++ "] " ++ text.

(** An error carries the code [code] when its message starts with the
    bracketed code, which is what [toThrowError(code)] looks for. *)
Definition has_code (code message : string) : bool :=
  String.prefix ("[" ++ code ++ "]") message.

(** ** JavaScript values *)

Set Warnings "-register-all".

(** The values that flow through the helper: configuration entries, JSON
    bodies of RPC responses, work tokens.  [JNum] stands for the
    integer-valued numbers whose string conversion is plain decimal;
    that is all the code ever does with a number (truthiness and string
    interpolation).  [JObj] lists the own properties of a plain object,
    each key once. *)
Inductive jsval : Type :=
| JUndefined
| JNull
| JBool (b : bool)
| JNum (z : Z)
| JStr (s : string)
| JArr (items : list jsval)
| JObj (fields : list (string * jsval)).

(** What [throw] and a rejected promise carry: an [Error] object with its
    message, or any other value. *)
Inductive thrown : Type :=
| Error (message : string)
| TypeError (message : string)
| AbortError
| Thrown (v : jsval).

(** The outcome of a call: returned value or thrown value. *)
Definition result (A : Type) : Type := thrown + A.

(** JavaScript truthiness, as in [if (x)] and [!x]. *)
Definition truthy (v : jsval) : bool :=
  match v with
  | JUndefined | JNull => false
  | JBool b => b
  | JNum z => negb (z =? 0)%Z
  | JStr s => negb (String.eqb s EmptyString)
  | JArr _ | JObj _ => true
  end.

(** [a ?? b] *)
Definition nullish_coalesce (a b : jsval) : jsval :=
  match a with
  | JUndefined | JNull => b
  | _ => a
  end.

Fixpoint assoc_lookup (k : string) (fields : list (string * jsval)) : option jsval :=
  match fields with
  | [] => None
  | (k', v) :: rest => if String.eqb k k' then Some v else assoc_lookup k rest
  end.

(** [{ ...o, k: v }] on own properties: an existing key keeps its place,
    a new one goes last. *)
Fixpoint assoc_set (k : string) (v : jsval) (fields : list (string * jsval))
  : list (string * jsval) :=
  match fields with
  | [] => [(k, v)]
  | (k', v') :: rest =>
      if String.eqb k k' then (k', v) :: rest else (k', v') :: assoc_set k v rest
  end.

(** [{ ...a, ...b }] *)
Definition spread (a b : list (string * jsval)) : list (string * jsval) :=
  fold_left (fun acc kv => assoc_set (fst kv) (snd kv) acc) b a.

(** Property read [v.k].  Reading a property of [undefined] or [null]
    throws a [TypeError]; a primitive or an array has none of the
    properties the helper reads ([error], [work], [frontier], [balance],
    [representative], [message]), so the read gives [undefined]. *)
Definition get_prop (v : jsval) (k : string) : result jsval :=
  match v with
  | JUndefined => inl (TypeError ("Cannot read properties of undefined (reading '" ++ k ++ "')"))
  | JNull => inl (TypeError ("Cannot read properties of null (reading '" ++ k ++ "')"))
  | JObj fields => inr (default JUndefined (assoc_lookup k fields))
  | _ => inr JUndefined
  end.

Definition decimal_of_Z (z : Z) : string :=
  if (z <? 0)%Z then "-" ++ decimal_of_N (Z.abs_N z) else decimal_of_N (Z.to_N z).

Fixpoint join_with (sep : string) (parts : list string) : string :=
  match parts with
  | [] => EmptyString
  | [p] => p
  | p :: rest => p ++ sep ++ join_with sep rest
  end.

(** String conversion, as performed by a template literal. *)
Fixpoint ToString (v : jsval) : string :=
  match v with
  | JUndefined => "undefined"
  | JNull => "null"
  | JBool true => "true"
  | JBool false => "false"
  | JNum z => decimal_of_Z z
  | JStr s => s
  | JArr items =>
      join_with ","
        (map (fun x => match x with
                       | JUndefined | JNull => EmptyString
                       | _ => ToString x
                       end) items)
  | JObj _ => "[object Object]"
  end.

(** [error.message] in a [catch (error)] clause. *)
Definition message_of (e : thrown) : result jsval :=
  match e with
  | Error m | TypeError m => inr (JStr m)
  | AbortError => inr (JStr "This operation was aborted")
  | Thrown v => get_prop v "message"
  end.

(** ** The outside world

    Everything the helper reaches for and does not define: the zod
    schemas and constants of the common package, the HTTP transport, the
    proof-of-work verification and the signing library. *)

Record Response : Type := {
  res_ok : bool;
  res_status : N;
  res_text : string;          (* [await res.text()] *)
  res_json : result jsval;    (* [await res.json()]: throws on a body that is no JSON *)
}.

(** What [fetch] does with a request: the promise rejects (the transport
    failed), or a response is there after [elapsed] milliseconds. *)
Inductive FetchOutcome : Type :=
| FetchRejects (e : thrown)
| FetchResolves (elapsed : N) (r : Response).

(** The fields handed to the signing routine. *)
Record BlockFields : Type := {
  bf_representative : jsval;
  bf_balance : jsval;
  bf_work : jsval;
  bf_link : jsval;
  bf_previous : jsval;
}.

Record NanoSendBlock : Type := {
  account : string;
  previous : jsval;
  representative : jsval;
  balance : jsval;
  link : jsval;
  work : jsval;
  signature : string;
}.

Class World : Type := {
  (** [URL.safeParse(s).success] on a string *)
  URL_schema : string -> bool;
  (** [SEND_BLOCK_WORK_THRESHOLD] *)
  SEND_BLOCK_WORK_THRESHOLD : string;
  (** [fetch(url, { method: 'POST', body })] *)
  fetch : jsval -> list (string * jsval) -> FetchOutcome;
  (** [Nano.Crypto.verifyWork({ hash, work, threshold })] *)
  verifyWork : jsval -> jsval -> string -> bool;
  (** [N.createBlock(privateKey, fields).block] *)
  N_createBlock : jsval -> BlockFields -> result NanoSendBlock;
  (** [N.deriveAddress(N.derivePublicKey(privateKey))] *)
  N_deriveAddress : jsval -> result string;
}.

(** ** Constants of the module *)

Definition ONE_SECOND : N := 1000%N.
Definition ONE_MINUTE : N := (60 * ONE_SECOND)%N.
Definition XRB_PREFIX : string := "xrb_".
Definition NANO_PREFIX : string := "nano_".

(** [NANO_ACCOUNT_PRIVATE_KEY_PROPERTY] of the common package: the key of
    the private key in [HelperConfig], as the [HELPER_CONFIG] schema of
    [dist/esm/index.d.mts] and the README name it. *)
Definition NANO_ACCOUNT_PRIVATE_KEY_PROPERTY : string := "NANO_ACCOUNT_PRIVATE_KEY".

Definition LF : string := String (ascii_of_nat 10) EmptyString.

(** ** Balance after a send *)

(** [new BigNumber(v)] on a value that is no number converts it to a
    string first. *)
Definition BigNumber_of (v : jsval) : BigNumber.t := BigNumber.new (ToString v).

Definition calculateBalanceAfterSend (currentBalance amountToSend : jsval) : result string :=
  let bnBalanceAfterSend :=
    BigNumber.minus (BigNumber_of currentBalance) (ToString amountToSend) in
  if BigNumber.lt bnBalanceAfterSend 0 then
    inl (Error (tagged ERROR_INSUFFICIENT_NANO_BALANCE
                  "Insufficient balance to perform Nano send transaction"))
  else inr (BigNumber.toFixed bnBalanceAfterSend).

(** ** Configuration validators *)

Definition is_hex_digit (c : ascii) : bool :=
  let n := nat_of_ascii c in
  ((48 <=? n)%nat && (n <=? 57)%nat)
  || ((65 <=? n)%nat && (n <=? 70)%nat)
  || ((97 <=? n)%nat && (n <=? 102)%nat).

Fixpoint all_hex (s : string) : bool :=
  match s with
  | EmptyString => true
  | String c s' => is_hex_digit c && all_hex s'
  end.

(** [HEX_64] of the common package: "a 64-character hexadecimal string";
    the validator's own message reads "should be 64 hexadecimal
    characters". *)
Definition HEX_64 (s : string) : bool :=
  (String.length s =? 64)%nat && all_hex s.

(** [schema.safeParse(v).success] for a string schema: anything that is
    not a string fails. *)
Definition safeParse (schema : string -> bool) (v : jsval) : bool :=
  match v with
  | JStr s => schema s
  | _ => false
  end.

Definition validateNanoRpcUrl `{World} (url : jsval) (bypassNullCheck : bool) : result unit :=
  if negb bypassNullCheck && negb (truthy url) then
    inl (Error (tagged ERROR_CONFIG "NANO_RPC_URL is not set"))
  else if negb (safeParse URL_schema url) then
    inl (Error (tagged ERROR_CONFIG "NANO_RPC_URL is not a valid URL"))
  else inr tt.

Definition validateNanoWorkGenerationUrl `{World} (url : jsval) (bypassNullCheck : bool)
  : result unit :=
  if negb bypassNullCheck && negb (truthy url) then
    inl (Error (tagged ERROR_CONFIG "NANO_WORK_GENERATION_URL is not set"))
  else if negb (safeParse URL_schema url) then
    inl (Error (tagged ERROR_CONFIG "NANO_WORK_GENERATION_URL is not a valid URL"))
  else inr tt.

Definition validateNanoAccountPrivateKey (privateKey : jsval) (bypassNullCheck : bool)
  : result unit :=
  if negb bypassNullCheck && negb (truthy privateKey) then
    inl (Error (tagged ERROR_CONFIG (NANO_ACCOUNT_PRIVATE_KEY_PROPERTY ++ " is not set")))
  else if negb (safeParse HEX_64 privateKey) then
    inl (Error (tagged ERROR_CONFIG
                  (NANO_ACCOUNT_PRIVATE_KEY_PROPERTY
                   ++ " is not of a valid format (should be 64 hexadecimal characters)")))
  else inr tt.

(** ** Work-generation hooks and generators *)

Record WorkGenerationHookContext : Type := {
  ctx_representative : jsval;
  ctx_balance : jsval;
  ctx_link : jsval;
  ctx_previous : jsval;
  ctx_work : jsval;
}.

(** A hook receives the shared context object and may mutate it: it
    either throws or leaves the context as the next reader finds it. *)
Definition Hook : Type := WorkGenerationHookContext -> result WorkGenerationHookContext.

(** A custom generator maps a hash to a work token, or rejects. *)
Definition WorkGenerator : Type := jsval -> result jsval.

(** ** Logged computations

    An asynchronous function of the module is a computation that returns
    or throws and records, in order, each interaction with its
    collaborators. *)
Inductive event : Type :=
| EvBeforeHook (index : nat) (context : WorkGenerationHookContext)
    (* the [index]-th before-hook is called with [context] *)
| EvAfterHook (index : nat) (context : WorkGenerationHookContext)
    (* the [index]-th after-hook is called with [context] *)
| EvFetch (url : jsval) (body : list (string * jsval)) (timeout : N)
    (* [fetch] posts [body] to [url] under a [timeout] ms deadline *)
| EvCustomWork (hash : jsval)
    (* the custom work generator is called *)
| EvVerifyWork (hash work : jsval) (threshold : string)
    (* [Nano.Crypto.verifyWork] is called *)
| EvBalance (currentBalance amountToSend : jsval)
    (* [calculateBalanceAfterSend] is called *)
| EvSign (privateKey : jsval) (fields : BlockFields).
    (* [N.createBlock] is called *)

Definition M (A : Type) : Type := list event * result A.

Definition ret {A} (a : A) : M A := ([], inr a).
Definition throw {A} (e : thrown) : M A := ([], inl e).
Definition emit (ev : event) : M unit := ([ev], inr tt).
Definition lift {A} (r : result A) : M A := ([], r).

Definition bind {A B} (m : M A) (k : A -> M B) : M B :=
  match m with
  | (tr, inl e) => (tr, inl e)
  | (tr, inr a) => let '(tr', r) := k a in ((tr ++ tr')%list, r)
  end.

(** [try { m } catch (error) { handler }] *)
Definition try_catch {A} (m : M A) (handler : thrown -> M A) : M A :=
  match m with
  | (tr, inl e) => let '(tr', r) := handler e in ((tr ++ tr')%list, r)
  | (tr, inr a) => (tr, inr a)
  end.

Notation "'let*' x ':=' m 'in' k" := (bind m (fun x => k))
  (at level 10, x binder, m at level 100, k at level 200, only parsing).

Definition trace {A} (m : M A) : list event := fst m.
Definition outcome {A} (m : M A) : result A := snd m.

(** A request for proof-of-work: a call of the custom generator, or an
    RPC request whose action is [work_generate]. *)
Definition is_work_request (ev : event) : bool :=
  match ev with
  | EvCustomWork _ => true
  | EvFetch _ body _ =>
      match assoc_lookup "action" body with
      | Some (JStr a) => String.eqb a "work_generate"
      | _ => false
      end
  | _ => false
  end.

Definition is_before_hook (ev : event) : bool :=
  match ev with
  | EvBeforeHook _ _ => true
  | _ => false
  end.

Definition before_hook_index (ev : event) : option nat :=
  match ev with
  | EvBeforeHook i _ => Some i
  | _ => None
  end.

Definition is_work_event (ev : event) : bool :=
  match ev with
  | EvFetch _ _ _ | EvCustomWork _ | EvVerifyWork _ _ _ => true
  | _ => false
  end.

Definition is_sign (ev : event) : bool :=
  match ev with
  | EvSign _ _ => true
  | _ => false
  end.

Definition is_balance (ev : event) : bool :=
  match ev with
  | EvBalance _ _ => true
  | _ => false
  end.

(** ** The RPC client *)

(** [await fetch(url, { ..., signal })] under the timer that aborts the
    request after [timeout] milliseconds. *)
Definition await_fetch `{World} (url : jsval) (body : list (string * jsval)) (timeout : N)
  : M Response :=
  let* _ := emit (EvFetch url body timeout) in
  match fetch url body with
  | FetchRejects e => throw e
  | FetchResolves elapsed res =>
      if (timeout <=? elapsed)%N then throw AbortError else ret res
  end.

(** [{ action, ...params }], the object whose JSON text is the request body. *)
Definition rpc_body (action : string) (params : list (string * jsval))
  : list (string * jsval) :=
  spread [("action", JStr action)] params.

Definition connection_error (isGeneratingWork : bool) : thrown :=
  Error ("["
         ++ (if isGeneratingWork then ERROR_NANO_WORK_GENERATION else ERROR_NANO_RPC_CONNECTION)
         ++ "] Could not connect to "
         ++ (if isGeneratingWork then "Nano Work Generation URL" else "Nano RPC URL")).

Definition nanoRpcCall `{World} (url : jsval) (action : string)
    (params : list (string * jsval)) (timeout : N) (isGeneratingWork : bool) : M jsval :=
  try_catch
    (let* res := await_fetch url (rpc_body action params) timeout in
     if negb (res_ok res) then
       throw (Error ("HTTP " ++ decimal_of_N (res_status res) ++ ": " ++ res_text res))
     else
       let* json := lift (res_json res) in
       let* error := lift (get_prop json "error") in
       if truthy error then
         throw (Error ("[" ++ ERROR_NANO_RPC_CONNECTION ++ "]: " ++ ToString error))
       else ret json)
    (fun _ => throw (connection_error isGeneratingWork)).

(** ** The configuration object *)

(** [config.k]: a missing property reads as [undefined]. *)
Definition cfg_get (config : gmap string jsval) (k : string) : jsval :=
  default JUndefined (config !! k).

(** ** Work generation *)

Definition workGenerate `{World} (config : gmap string jsval) (hash : jsval)
    (threshold : string) (workGenerator : option WorkGenerator) : M jsval :=
  let* work :=
    match workGenerator with
    | Some generator =>
        try_catch
          (let* _ := emit (EvCustomWork hash) in lift (generator hash))
          (fun error =>
             let* message := lift (message_of error) in
             throw (Error (tagged ERROR_NANO_WORK_GENERATION
                             ("Error during custom work generation " ++ LF ++ "Cause: "
                              ++ ToString message))))
    | None =>
        try_catch
          (let workGenerationUrl :=
             nullish_coalesce (cfg_get config "NANO_WORK_GENERATION_URL")
                              (cfg_get config "NANO_RPC_URL") in
           let* workGenerateResponse :=
             nanoRpcCall workGenerationUrl "work_generate" [("hash", hash)]
                         (5 * ONE_MINUTE)%N true in
           lift (get_prop workGenerateResponse "work"))
          (fun error =>
             let* message := lift (message_of error) in
             throw (Error (tagged ERROR_NANO_WORK_GENERATION
                             ("Error during work generation " ++ LF ++ "Cause: "
                              ++ ToString message))))
    end in
  let* _ := emit (EvVerifyWork hash work threshold) in
  if verifyWork hash work threshold then ret work
  else throw (Error (tagged ERROR_NANO_WORK_GENERATION "Generated work is not valid")).

(** The generator call of [workGenerate] went through and gave the token
    [w]: the custom generator returned it, or the [work_generate] request
    returned a response whose [work] property it is. *)
Definition generator_returns `{World} (config : gmap string jsval) (hash : jsval)
    (workGenerator : option WorkGenerator) (w : jsval) : Prop :=
  match workGenerator with
  | Some generator => generator hash = inr w
  | None =>
      exists response : jsval,
        outcome (nanoRpcCall
                   (nullish_coalesce (cfg_get config "NANO_WORK_GENERATION_URL")
                                     (cfg_get config "NANO_RPC_URL"))
                   "work_generate" [("hash", hash)] (5 * ONE_MINUTE)%N true)
        = inr response /\
        get_prop response "work" = inr w
  end.

(** ** Block creation *)

(** [for (const hook of hooks) await hook(context)] *)
Fixpoint run_before_hooks (index : nat) (hooks : list Hook)
    (context : WorkGenerationHookContext) : M WorkGenerationHookContext :=
  match hooks with
  | [] => ret context
  | hook :: rest =>
      let* _ := emit (EvBeforeHook index context) in
      let* context' := lift (hook context) in
      run_before_hooks (S index) rest context'
  end.

Definition with_work (context : WorkGenerationHookContext) (w : jsval)
  : WorkGenerationHookContext :=
  {| ctx_representative := ctx_representative context;
     ctx_balance := ctx_balance context;
     ctx_link := ctx_link context;
     ctx_previous := ctx_previous context;
     ctx_work := w |}.

(** [for (const hook of hooks) await hook(Object.assign(context, { work }))] *)
Fixpoint run_after_hooks (index : nat) (hooks : list Hook) (w : jsval)
    (context : WorkGenerationHookContext) : M WorkGenerationHookContext :=
  match hooks with
  | [] => ret context
  | hook :: rest =>
      let context1 := with_work context w in
      let* _ := emit (EvAfterHook index context1) in
      let* context' := lift (hook context1) in
      run_after_hooks (S index) rest w context'
  end.

(** [account.replace(XRB_PREFIX, NANO_PREFIX)] on an account that starts
    with the legacy prefix. *)
Definition normalize_account (a : string) : string :=
  if String.prefix XRB_PREFIX a then
    NANO_PREFIX ++ String.substring (String.length XRB_PREFIX)
                                    (String.length a - String.length XRB_PREFIX) a
  else a.

Definition with_account (b : NanoSendBlock) (a : string) : NanoSendBlock :=
  {| account := a; previous := previous b; representative := representative b;
     balance := balance b; link := link b; work := work b; signature := signature b |}.

Definition createBlock `{World} (config : gmap string jsval)
    (representative balance link previous : jsval)
    (beforeWorkGenerationHooks afterWorkGenerationHooks : list Hook)
    (workGenerator : option WorkGenerator) : M NanoSendBlock :=
  let context :=
    {| ctx_representative := representative; ctx_balance := balance;
       ctx_link := link; ctx_previous := previous; ctx_work := JUndefined |} in
  let* context := run_before_hooks 0 beforeWorkGenerationHooks context in
  let* work := workGenerate config previous SEND_BLOCK_WORK_THRESHOLD workGenerator in
  let* _ := run_after_hooks 0 afterWorkGenerationHooks work context in
  if truthy work then
    let fields :=
      {| bf_representative := representative; bf_balance := balance;
         bf_work := work; bf_link := link; bf_previous := previous |} in
    let privateKey := cfg_get config NANO_ACCOUNT_PRIVATE_KEY_PROPERTY in
    let* _ := emit (EvSign privateKey fields) in
    let* block := lift (N_createBlock privateKey fields) in
    ret (with_account block (normalize_account (account block)))
  else
    throw (Error (tagged ERROR_NANO_WORK_GENERATION
                    "No work generated during creation of Nano send block")).

Definition getAccount `{World} (config : gmap string jsval) : result string :=
  N_deriveAddress (cfg_get config NANO_ACCOUNT_PRIVATE_KEY_PROPERTY).

(** ** The [Helper] class *)

Record Helper : Type := {
  config : gmap string jsval;
  beforeWorkGenerationHooks : list Hook;
  afterWorkGenerationHooks : list Hook;
  workGenerator : option WorkGenerator;
}.

Definition set_config (this : Helper) (c : gmap string jsval) : Helper :=
  {| config := c;
     beforeWorkGenerationHooks := beforeWorkGenerationHooks this;
     afterWorkGenerationHooks := afterWorkGenerationHooks this;
     workGenerator := workGenerator this |}.

(** A synchronous method: it returns or throws, and leaves the instance
    in some state either way. *)
Definition method (A : Type) : Type := Helper -> result A * Helper.

(** [new Helper(config?)] *)
Definition constructor (config : option (gmap string jsval)) : Helper :=
  {| config :=
       match config with
       | Some c =>
           <["NANO_WORK_GENERATION_URL" :=
               nullish_coalesce (cfg_get c "NANO_WORK_GENERATION_URL")
                                (cfg_get c "NANO_RPC_URL")]> c
       | None => ∅
       end;
     beforeWorkGenerationHooks := [];
     afterWorkGenerationHooks := [];
     workGenerator := None |}.

Definition setNanoRpcUrl `{World} (url : jsval) : method unit :=
  fun this =>
    match validateNanoRpcUrl url true with
    | inl e => (inl e, this)
    | inr _ =>
        let c1 := <["NANO_RPC_URL" := url]> (config this) in
        let c2 :=
          <["NANO_WORK_GENERATION_URL" :=
              nullish_coalesce (cfg_get c1 "NANO_WORK_GENERATION_URL")
                               (cfg_get c1 "NANO_RPC_URL")]> c1 in
        (inr tt, set_config this c2)
    end.

Definition setNanoWorkGenerationUrl `{World} (url : jsval) : method unit :=
  fun this =>
    match validateNanoWorkGenerationUrl url true with
    | inl e => (inl e, this)
    | inr _ => (inr tt, set_config this (<["NANO_WORK_GENERATION_URL" := url]> (config this)))
    end.

Definition already_set_error : thrown :=
  Error (tagged ERROR_CONFIG
           "Nano account private key already set. Manually clear with clearNanoAccountPrivateKey() first.").

Definition setNanoAccountPrivateKey (privateKey : jsval) : method unit :=
  fun this =>
    match validateNanoAccountPrivateKey privateKey true with
    | inl e => (inl e, this)
    | inr _ =>
        if truthy (cfg_get (config this) NANO_ACCOUNT_PRIVATE_KEY_PROPERTY) then
          (inl already_set_error, this)
        else
          (inr tt,
           set_config this (<[NANO_ACCOUNT_PRIVATE_KEY_PROPERTY := privateKey]> (config this)))
    end.

Definition clearNanoAccountPrivateKey : method unit :=
  fun this =>
    (inr tt,
     set_config this (<[NANO_ACCOUNT_PRIVATE_KEY_PROPERTY := JUndefined]> (config this))).

(** [setCustomWorkGenerator] on a function; [validateCustomWorkGenerator]
    lets a function through. *)
Definition setCustomWorkGenerator (generator : WorkGenerator) : method unit :=
  fun this =>
    (inr tt,
     {| config := config this;
        beforeWorkGenerationHooks := beforeWorkGenerationHooks this;
        afterWorkGenerationHooks := afterWorkGenerationHooks this;
        workGenerator := Some generator |}).

Definition onBeforeWorkGeneration (hook : Hook) : method unit :=
  fun this =>
    (inr tt,
     {| config := config this;
        beforeWorkGenerationHooks := beforeWorkGenerationHooks this ++ [hook];
        afterWorkGenerationHooks := afterWorkGenerationHooks this;
        workGenerator := workGenerator this |}).

Definition onAfterWorkGeneration (hook : Hook) : method unit :=
  fun this =>
    (inr tt,
     {| config := config this;
        beforeWorkGenerationHooks := beforeWorkGenerationHooks this;
        afterWorkGenerationHooks := afterWorkGenerationHooks this ++ [hook];
        workGenerator := workGenerator this |}).

(** [const { NANO_ACCOUNT_PRIVATE_KEY: _, ...configWithoutPrivateKey } = this.config]:
    a fresh object with every own property but the named one. *)
Definition getConfig (this : Helper) : gmap string jsval :=
  delete "NANO_ACCOUNT_PRIVATE_KEY" (config this).

(** The two credential states, read off the stored property the way the
    guard of [setNanoAccountPrivateKey] reads it. *)
Inductive credential : Type := NoKey | KeySet.

Definition credential_state (this : Helper) : credential :=
  if truthy (cfg_get (config this) NANO_ACCOUNT_PRIVATE_KEY_PROPERTY) then KeySet else NoKey.

Definition getAccountInfo `{World} (this : Helper) (account : jsval) : M jsval :=
  let* _ := lift (validateNanoRpcUrl (cfg_get (config this) "NANO_RPC_URL") false) in
  nanoRpcCall (cfg_get (config this) "NANO_RPC_URL") "account_info"
              [("account", account); ("representative", JStr "true")]
              ONE_MINUTE false.

Record GenerateSendBlockParams : Type := {
  payTo : jsval;
  amount : jsval;
}.

Definition no_frontier_error : thrown :=
  Error (tagged ERROR_BLOCK_GENERATION "Source account has no frontier (unopened account)").

Definition generateSendBlock `{World} (this : Helper) (params : GenerateSendBlockParams)
  : M NanoSendBlock :=
  let* _ := lift (validateNanoRpcUrl (cfg_get (config this) "NANO_RPC_URL") false) in
  let* _ := lift (validateNanoAccountPrivateKey
                    (cfg_get (config this) NANO_ACCOUNT_PRIVATE_KEY_PROPERTY) false) in
  let* _ := lift (validateNanoWorkGenerationUrl
                    (cfg_get (config this) "NANO_WORK_GENERATION_URL") false) in
  let amountToSend := amount params in
  let* sourceAccount := lift (getAccount (config this)) in
  let* sourceAccountInfo := getAccountInfo this (JStr sourceAccount) in
  let* currentBalance := lift (get_prop sourceAccountInfo "balance") in
  let* frontier := lift (get_prop sourceAccountInfo "frontier") in
  if negb (truthy frontier) then throw no_frontier_error
  else
    let* _ := emit (EvBalance currentBalance amountToSend) in
    let* balanceAfterSend := lift (calculateBalanceAfterSend currentBalance amountToSend) in
    let* representative := lift (get_prop sourceAccountInfo "representative") in
    createBlock (config this) representative (JStr balanceAfterSend) (payTo params) frontier
                (beforeWorkGenerationHooks this) (afterWorkGenerationHooks this)
                (workGenerator this).

(** ** Sample collaborators

    A small world for closed instances of the statements below: a URL
    schema that wants an [https://] prefix, a transport that gives the
    same reply to every request, a verification routine that accepts
    exactly one token. *)

Definition sample_URL_schema (s : string) : bool :=
  String.prefix "https://" s && (8 <? String.length s)%nat.

Definition json_response (j : jsval) : Response :=
  {| res_ok := true; res_status := 200%N; res_text := EmptyString; res_json := inr j |}.

Definition sample_block (privateKey : jsval) (f : BlockFields) : NanoSendBlock :=
  {| account := "xrb_1sample"; previous := bf_previous f;
     representative := bf_representative f; balance := bf_balance f;
     link := bf_link f; work := bf_work f; signature := "00" |}.

Definition sample_world (reply : FetchOutcome) : World :=
  {| URL_schema := sample_URL_schema;
     SEND_BLOCK_WORK_THRESHOLD := "fffffff800000000";
     fetch := fun _ _ => reply;
     verifyWork := fun _ w _ =>
       match w with JStr t => String.eqb t "baeb18003600c19c" | _ => false end;
     N_createBlock := fun k f => inr (sample_block k f);
     N_deriveAddress := fun _ => inr "nano_1sample" |}.

Definition SAMPLE_NANO_ACCOUNT_PRIVATE_KEY : string :=
  "D9E8DABBE4D0C34408C6662CBAD2152C091568BDC6A0A0C07DB188B8C00DCC83".
Definition SAMPLE_NANO_ACCOUNT_PRIVATE_KEY_2 : string :=
  "614D9DEBE870D30EFCABF74927E688FD2C3261486B7BAA8E10E3D642E4F5EDBC".
Definition SAMPLE_NANO_RPC_URL : string := "https://sample-nano-rpc-url".

Definition sample_config : gmap string jsval :=
  <["NANO_ACCOUNT_PRIVATE_KEY" := JStr SAMPLE_NANO_ACCOUNT_PRIVATE_KEY]>
    (<["NANO_RPC_URL" := JStr SAMPLE_NANO_RPC_URL]> ∅).

Definition sample_account_info : jsval :=
  JObj [("frontier", JStr "D1C14068F8AD4F6D2EB48CC4232AFD76E2AC13CEB7F021AD0FCA2339394CE5A7");
        ("representative", JStr "nano_1rep");
        ("balance", JStr "50");
        ("work", JStr "baeb18003600c19c")].

Definition sample_hook_ok : Hook := fun context => inr context.
Definition sample_hook_throws : Hook := fun _ => inl (Error "audit log unavailable").

Definition sample_context : WorkGenerationHookContext :=
  {| ctx_representative := JStr "nano_1rep"; ctx_balance := JStr "20";
     ctx_link := JStr "nano_1dest"; ctx_previous := JStr "00"; ctx_work := JUndefined |}.

(** The error of [calculateBalanceAfterSend]. *)
Definition insufficient_balance_error : thrown :=
  Error "[error_insufficient_nano_balance] Insufficient balance to perform Nano send transaction".

(** ** Block submission *)

(** [processBlock({ block })]; the block is whatever object the caller
    hands over. *)
Definition processBlock `{World} (this : Helper) (block : jsval) : M jsval :=
  let* _ := lift (validateNanoRpcUrl (cfg_get (config this) "NANO_RPC_URL") false) in
  nanoRpcCall (cfg_get (config this) "NANO_RPC_URL") "process"
              [("json_block", JStr "true"); ("subtype", JStr "send"); ("block", block)]
              ONE_MINUTE false.

(** The request that [workGenerate] posts when there is no custom
    generator. *)
Definition work_generate_request (config : gmap string jsval) (hash : jsval) : event :=
  EvFetch (nullish_coalesce (cfg_get config "NANO_WORK_GENERATION_URL")
                            (cfg_get config "NANO_RPC_URL"))
          [("action", JStr "work_generate"); ("hash", hash)]
          300000%N.

(** The request of [getAccountInfo], and that of [processBlock]. *)
Definition account_info_request (this : Helper) (account : jsval) : event :=
  EvFetch (cfg_get (config this) "NANO_RPC_URL")
          [("action", JStr "account_info"); ("account", account);
           ("representative", JStr "true")]
          60000%N.

Definition process_request (this : Helper) (block : jsval) : event :=
  EvFetch (cfg_get (config this) "NANO_RPC_URL")
          [("action", JStr "process"); ("json_block", JStr "true");
           ("subtype", JStr "send"); ("block", block)]
          60000%N.

(** ** More event classifiers *)

Definition is_fetch (ev : event) : bool :=
  match ev with
  | EvFetch _ _ _ => true
  | _ => false
  end.

(** An HTTP request for work, as opposed to a call of a custom generator. *)
Definition is_work_rpc (ev : event) : bool :=
  is_fetch ev && is_work_request ev.

Definition is_after_hook (ev : event) : bool :=
  match ev with
  | EvAfterHook _ _ => true
  | _ => false
  end.

Definition is_verify (ev : event) : bool :=
  match ev with
  | EvVerifyWork _ _ _ => true
  | _ => false
  end.

(** The index and the [work] that an after-hook invocation was given. *)
Definition after_hook_call (ev : event) : option (nat * jsval) :=
  match ev with
  | EvAfterHook i context => Some (i, ctx_work context)
  | _ => None
  end.

(** A hook that rewrites every field of the context it is given. *)
Definition sample_hook_mutates : Hook :=
  fun _ =>
    inr {| ctx_representative := JStr "nano_1evil"; ctx_balance := JStr "0";
           ctx_link := JStr "nano_1evil"; ctx_previous := JStr "ff";
           ctx_work := JStr "ffffffffffffffff" |}.

Definition sample_generator : WorkGenerator := fun _ => inr (JStr "baeb18003600c19c").

(** * Properties *)

(** ** Decimal strings and the balance calculator *)

Lemma decimal_value_of_N (n : N) : decimal_value (decimal_of_N n) = Some n.
Proof.
  unfold decimal_value, decimal_of_N.
  rewrite NilZero.usu.
  - now rewrite DecimalN.Unsigned.of_to.
  - destruct n; simpl; [discriminate | apply DecimalPos.Unsigned.to_uint_nonnil].
Qed.

Lemma all_digits_string_of_uint (d : Decimal.uint) :
  all_digits (NilEmpty.string_of_uint d) = true.
Proof. induction d; simpl; auto. Qed.

Lemma canonical_unorm (d : Decimal.uint) :
  canonical_decimal (NilZero.string_of_uint (Decimal.unorm d)) = true.
Proof.
  induction d; try reflexivity; try exact IHd;
    unfold Decimal.unorm; simpl; apply all_digits_string_of_uint.
Qed.

Lemma canonical_decimal_of_N (n : N) : canonical_decimal (decimal_of_N n) = true.
Proof.
  unfold decimal_of_N.
  rewrite <- (DecimalN.Unsigned.of_to n) at 1.
  rewrite DecimalN.Unsigned.to_of.
  apply canonical_unorm.
Qed.

Lemma digit_uint_of_char (c : ascii) (d : Decimal.uint) :
  is_digit c = true -> exists d', uint_of_char c (Some d) = Some d'.
Proof.
  destruct c as [[] [] [] [] [] [] [] []]; simpl; intros Hc;
    try discriminate Hc; eexists; reflexivity.
Qed.

Lemma all_digits_uint_of_string (s : string) :
  all_digits s = true -> exists d, NilEmpty.uint_of_string s = Some d.
Proof.
  induction s as [|c s IH]; simpl; intros Hs.
  - eexists; reflexivity.
  - apply andb_prop in Hs as [Hc Hs].
    destruct (IH Hs) as [d ->].
    now apply digit_uint_of_char.
Qed.

Lemma STRING_INT_decimal_value (s : string) :
  STRING_INT s = true -> exists n, decimal_value s = Some n.
Proof.
  destruct s as [|c s]; [discriminate|].
  unfold STRING_INT, decimal_value, NilZero.uint_of_string. intros Hs.
  destruct (all_digits_uint_of_string _ Hs) as [d ->].
  eexists; reflexivity.
Qed.

Lemma BigNumber_new_decimal (s : string) (n : N) :
  decimal_value s = Some n -> BigNumber.new s = BigNumber.Int (Z.of_N n).
Proof.
  destruct s as [|c s]; [discriminate|].
  intros Hs.
  destruct (ascii_dec c "-") as [-> | Hc].
  - exfalso. revert Hs. unfold decimal_value, NilZero.uint_of_string.
    simpl. destruct (NilEmpty.uint_of_string s); discriminate.
  - assert (BigNumber.new (String c s)
            = match decimal_value (String c s) with
              | Some n => BigNumber.Int (Z.of_N n)
              | None => BigNumber.NaN
              end) as ->.
    { destruct c as [[] [] [] [] [] [] [] []]; try reflexivity. now destruct Hc. }
    now rewrite Hs.
Qed.

(** C1. For non-negative integer decimal strings, [calculateBalanceAfterSend]
    returns the exact difference [currentBalance - amountToSend] as a
    canonical decimal string (digits only, no leading zero) whenever the
    amount does not exceed the balance, and throws the insufficient-balance
    error, returning nothing, whenever it does. *)
Theorem calculateBalanceAfterSend_exact (currentBalance amountToSend : string) :
  STRING_INT currentBalance = true ->
  STRING_INT amountToSend = true ->
  exists a b : N,
    decimal_value currentBalance = Some a /\
    decimal_value amountToSend = Some b /\
    ((b <= a)%N ->
       exists r : string,
         calculateBalanceAfterSend (JStr currentBalance) (JStr amountToSend) = inr r /\
         canonical_decimal r = true /\
         decimal_value r = Some (a - b)%N) /\
    ((a < b)%N ->
       calculateBalanceAfterSend (JStr currentBalance) (JStr amountToSend)
       = inl (Error "[error_insufficient_nano_balance] Insufficient balance to perform Nano send transaction")).
Proof.
  intros Hc Ha.
  destruct (STRING_INT_decimal_value _ Hc) as [a Hva].
  destruct (STRING_INT_decimal_value _ Ha) as [b Hvb].
  exists a, b. split; [exact Hva|]. split; [exact Hvb|].
  unfold calculateBalanceAfterSend, BigNumber_of, BigNumber.minus. simpl ToString.
  rewrite (BigNumber_new_decimal _ _ Hva), (BigNumber_new_decimal _ _ Hvb).
  unfold BigNumber.lt, BigNumber.toFixed.
  split; intros Hab.
  - destruct (Z.ltb_spec (Z.of_N a - Z.of_N b) 0) as [Hlt | Hge]; [lia|].
    eexists. split; [reflexivity|].
    replace (Z.to_N (Z.of_N a - Z.of_N b)) with (a - b)%N by lia.
    split; [apply canonical_decimal_of_N | apply decimal_value_of_N].
  - destruct (Z.ltb_spec (Z.of_N a - Z.of_N b) 0) as [Hlt | Hge]; [reflexivity | lia].
Qed.

Lemma calculateBalanceAfterSend_exact_witness :
  exists a b : N,
    decimal_value "50" = Some a /\
    decimal_value "30" = Some b /\
    ((b <= a)%N ->
       exists r : string,
         calculateBalanceAfterSend (JStr "50") (JStr "30") = inr r /\
         canonical_decimal r = true /\
         decimal_value r = Some (a - b)%N) /\
    ((a < b)%N ->
       calculateBalanceAfterSend (JStr "50") (JStr "30")
       = inl (Error "[error_insufficient_nano_balance] Insufficient balance to perform Nano send transaction")).
Proof.
  apply (calculateBalanceAfterSend_exact "50" "30"); reflexivity.
Defined.

(** ** The credential state machine *)

Lemma cfg_get_insert_eq (c : gmap string jsval) (k : string) (v : jsval) :
  cfg_get (<[k := v]> c) k = v.
Proof. unfold cfg_get. now rewrite lookup_insert_eq. Qed.

Lemma cfg_get_insert_ne (c : gmap string jsval) (k k' : string) (v : jsval) :
  k ≠ k' -> cfg_get (<[k := v]> c) k' = cfg_get c k'.
Proof. intros Hk. unfold cfg_get. now rewrite lookup_insert_ne. Qed.

Lemma HEX_64_nonempty : HEX_64 EmptyString = false.
Proof. reflexivity. Qed.

Lemma HEX_64_truthy (s : string) : HEX_64 s = true -> truthy (JStr s) = true.
Proof. destruct s; [discriminate | reflexivity]. Qed.

Lemma validateNanoAccountPrivateKey_bypass (v : jsval) :
  validateNanoAccountPrivateKey v true
  = if safeParse HEX_64 v then inr tt
    else inl (Error "[error_config] NANO_ACCOUNT_PRIVATE_KEY is not of a valid format (should be 64 hexadecimal characters)").
Proof. unfold validateNanoAccountPrivateKey. simpl. now destruct (safeParse HEX_64 v). Qed.

Lemma setNanoAccountPrivateKey_cases (privateKey : jsval) (this : Helper) :
  setNanoAccountPrivateKey privateKey this
  = if negb (safeParse HEX_64 privateKey) then
      (inl (Error "[error_config] NANO_ACCOUNT_PRIVATE_KEY is not of a valid format (should be 64 hexadecimal characters)"), this)
    else match credential_state this with
         | KeySet => (inl already_set_error, this)
         | NoKey =>
             (inr tt,
              set_config this (<[NANO_ACCOUNT_PRIVATE_KEY_PROPERTY := privateKey]> (config this)))
         end.
Proof.
  unfold setNanoAccountPrivateKey, credential_state.
  rewrite validateNanoAccountPrivateKey_bypass.
  destruct (safeParse HEX_64 privateKey); simpl; [|reflexivity].
  now destruct (truthy _).
Qed.

(** C3. The private key follows the two-state machine no-key / key-set:
    [setNanoAccountPrivateKey] on an instance whose key is set throws a
    configuration error and leaves the instance, hence the stored key,
    as it was; [clearNanoAccountPrivateKey] always returns and leaves the
    instance in the no-key state; and after it [setNanoAccountPrivateKey]
    with a 64-hex key returns, storing that key. *)
Theorem credential_state_machine :
  (forall (this : Helper) (privateKey : jsval),
     credential_state this = KeySet ->
     exists message : string,
       setNanoAccountPrivateKey privateKey this = (inl (Error message), this) /\
       has_code ERROR_CONFIG message = true) /\
  (forall this : Helper,
     fst (clearNanoAccountPrivateKey this) = inr tt /\
     credential_state (snd (clearNanoAccountPrivateKey this)) = NoKey) /\
  (forall (this : Helper) (key : string),
     HEX_64 key = true ->
     let cleared := snd (clearNanoAccountPrivateKey this) in
     fst (setNanoAccountPrivateKey (JStr key) cleared) = inr tt /\
     credential_state (snd (setNanoAccountPrivateKey (JStr key) cleared)) = KeySet /\
     cfg_get (config (snd (setNanoAccountPrivateKey (JStr key) cleared)))
             NANO_ACCOUNT_PRIVATE_KEY_PROPERTY = JStr key).
Proof.
  split; [|split].
  - intros this privateKey Hset.
    rewrite setNanoAccountPrivateKey_cases, Hset.
    destruct (safeParse HEX_64 privateKey); simpl; eexists; split; reflexivity.
  - intros this. split; [reflexivity|].
    unfold credential_state, clearNanoAccountPrivateKey. simpl.
    now rewrite cfg_get_insert_eq.
  - intros this key Hkey cleared.
    assert (Hno : credential_state cleared = NoKey).
    { unfold cleared, credential_state, clearNanoAccountPrivateKey. simpl.
      now rewrite cfg_get_insert_eq. }
    rewrite setNanoAccountPrivateKey_cases, Hno. simpl safeParse. rewrite Hkey. simpl.
    split; [reflexivity|].
    unfold credential_state. simpl. rewrite cfg_get_insert_eq.
    rewrite (HEX_64_truthy _ Hkey). split; reflexivity.
Qed.

Lemma credential_state_machine_witness :
  let this := constructor (Some sample_config) in
  credential_state this = KeySet /\
  HEX_64 SAMPLE_NANO_ACCOUNT_PRIVATE_KEY_2 = true /\
  (exists message : string,
     setNanoAccountPrivateKey (JStr SAMPLE_NANO_ACCOUNT_PRIVATE_KEY_2) this
     = (inl (Error message), this) /\
     has_code ERROR_CONFIG message = true) /\
  fst (setNanoAccountPrivateKey (JStr SAMPLE_NANO_ACCOUNT_PRIVATE_KEY_2)
         (snd (clearNanoAccountPrivateKey this))) = inr tt.
Proof.
  intros this.
  assert (Hset : credential_state this = KeySet) by (vm_compute; reflexivity).
  assert (Hkey : HEX_64 SAMPLE_NANO_ACCOUNT_PRIVATE_KEY_2 = true) by (vm_compute; reflexivity).
  split; [exact Hset|]. split; [exact Hkey|].
  destruct credential_state_machine as [Hforbidden [_ Hafter]].
  split.
  - exact (Hforbidden this (JStr SAMPLE_NANO_ACCOUNT_PRIVATE_KEY_2) Hset).
  - exact (proj1 (Hafter this SAMPLE_NANO_ACCOUNT_PRIVATE_KEY_2 Hkey)).
Defined.

(** ** Confidentiality of the private key *)

(** C4. In every state of a [Helper], reachable or not, the object that
    [getConfig] returns has no private-key property; this holds in
    particular in the state that a call of [setNanoAccountPrivateKey]
    leaves, whose [getConfig] equals the one before the call; and two
    instances whose configurations differ at most in the stored private
    key have the same [getConfig]. *)
Theorem getConfig_hides_private_key :
  (forall this : Helper, getConfig this !! NANO_ACCOUNT_PRIVATE_KEY_PROPERTY = None) /\
  (forall (this : Helper) (privateKey : jsval),
     let after := snd (setNanoAccountPrivateKey privateKey this) in
     getConfig after !! NANO_ACCOUNT_PRIVATE_KEY_PROPERTY = None /\
     getConfig after = getConfig this) /\
  (forall (this : Helper) (key : jsval),
     getConfig (set_config this (<[NANO_ACCOUNT_PRIVATE_KEY_PROPERTY := key]> (config this)))
     = getConfig this) /\
  (forall this1 this2 : Helper,
     (forall k : string, k ≠ NANO_ACCOUNT_PRIVATE_KEY_PROPERTY ->
                         config this1 !! k = config this2 !! k) ->
     getConfig this1 = getConfig this2).
Proof.
  assert (Hins : forall (this : Helper) (key : jsval),
             getConfig (set_config this (<[NANO_ACCOUNT_PRIVATE_KEY_PROPERTY := key]> (config this)))
             = getConfig this).
  { intros this key. unfold getConfig, NANO_ACCOUNT_PRIVATE_KEY_PROPERTY. simpl.
    apply delete_insert_eq. }
  split; [|split; [|split]].
  - intros this. apply lookup_delete_eq.
  - intros this privateKey after. split; [apply lookup_delete_eq|].
    unfold after. rewrite setNanoAccountPrivateKey_cases.
    destruct (negb _); [reflexivity|].
    destruct (credential_state this); [apply Hins | reflexivity].
  - exact Hins.
  - intros this1 this2 Hsame. unfold getConfig. apply map_eq. intros k.
    destruct (decide (k = "NANO_ACCOUNT_PRIVATE_KEY")) as [-> | Hk].
    + now rewrite !lookup_delete_eq.
    + rewrite !lookup_delete_ne by congruence. now apply Hsame.
Qed.

Lemma getConfig_hides_private_key_witness :
  let this1 := constructor (Some sample_config) in
  let this2 := snd (clearNanoAccountPrivateKey this1) in
  (forall k : string, k ≠ NANO_ACCOUNT_PRIVATE_KEY_PROPERTY ->
                      config this1 !! k = config this2 !! k) /\
  getConfig this1 = getConfig this2.
Proof.
  intros this1 this2.
  assert (Hsame : forall k : string, k ≠ NANO_ACCOUNT_PRIVATE_KEY_PROPERTY ->
                                     config this1 !! k = config this2 !! k).
  { intros k Hk. unfold this2, clearNanoAccountPrivateKey. simpl.
    symmetry. apply lookup_insert_ne. intros Heq. apply Hk. symmetry. exact Heq. }
  split; [exact Hsame|].
  exact (proj2 (proj2 (proj2 getConfig_hides_private_key)) this1 this2 Hsame).
Defined.

(** ** Atomicity of the key setter *)

(** C10. Whenever [setNanoAccountPrivateKey] throws, the instance is left
    exactly as it was; and the format check comes first: a value that is
    not a 64-hex string yields the format error whatever the credential
    state, also when a key is already set, while the already-set error
    is what a well-formed key yields on an instance whose key is set. *)
Theorem setNanoAccountPrivateKey_atomic :
  (forall (this this' : Helper) (privateKey : jsval) (e : thrown),
     setNanoAccountPrivateKey privateKey this = (inl e, this') -> this' = this) /\
  (forall (this : Helper) (privateKey : jsval),
     safeParse HEX_64 privateKey = false ->
     setNanoAccountPrivateKey privateKey this
     = (inl (Error "[error_config] NANO_ACCOUNT_PRIVATE_KEY is not of a valid format (should be 64 hexadecimal characters)"),
        this)) /\
  (forall (this : Helper) (privateKey : jsval),
     safeParse HEX_64 privateKey = true ->
     credential_state this = KeySet ->
     setNanoAccountPrivateKey privateKey this
     = (inl (Error "[error_config] Nano account private key already set. Manually clear with clearNanoAccountPrivateKey() first."),
        this)).
Proof.
  split; [|split].
  - intros this this' privateKey e. rewrite setNanoAccountPrivateKey_cases.
    destruct (negb _); [now intros [= <-]|].
    destruct (credential_state this); [discriminate | now intros [= <-]].
  - intros this privateKey Hbad. rewrite setNanoAccountPrivateKey_cases, Hbad. reflexivity.
  - intros this privateKey Hok Hset.
    rewrite setNanoAccountPrivateKey_cases, Hok, Hset. reflexivity.
Qed.

Lemma setNanoAccountPrivateKey_atomic_witness :
  let this := constructor (Some sample_config) in
  safeParse HEX_64 (JStr "an_invalid_nano_private_key") = false /\
  credential_state this = KeySet /\
  setNanoAccountPrivateKey (JStr "an_invalid_nano_private_key") this
  = (inl (Error "[error_config] NANO_ACCOUNT_PRIVATE_KEY is not of a valid format (should be 64 hexadecimal characters)"),
     this) /\
  snd (setNanoAccountPrivateKey (JStr SAMPLE_NANO_ACCOUNT_PRIVATE_KEY_2) this) = this.
Proof.
  intros this.
  assert (Hbad : safeParse HEX_64 (JStr "an_invalid_nano_private_key") = false)
    by (vm_compute; reflexivity).
  assert (Hset : credential_state this = KeySet) by (vm_compute; reflexivity).
  destruct setNanoAccountPrivateKey_atomic as [Hatomic [Hformat Hguard]].
  split; [exact Hbad|]. split; [exact Hset|]. split.
  - exact (Hformat this _ Hbad).
  - rewrite (Hguard this (JStr SAMPLE_NANO_ACCOUNT_PRIVATE_KEY_2)); [reflexivity | | exact Hset].
    vm_compute; reflexivity.
Defined.

(** ** The RPC client *)

(** One request goes out, and the outcome is read off the reply. *)
Lemma nanoRpcCall_cases `{World} (url : jsval) (action : string)
    (params : list (string * jsval)) (timeout : N) (isGeneratingWork : bool) :
  nanoRpcCall url action params timeout isGeneratingWork
  = ([EvFetch url (rpc_body action params) timeout],
     match fetch url (rpc_body action params) with
     | FetchRejects _ => inl (connection_error isGeneratingWork)
     | FetchResolves elapsed res =>
         if (timeout <=? elapsed)%N then inl (connection_error isGeneratingWork)
         else if negb (res_ok res) then inl (connection_error isGeneratingWork)
         else match res_json res with
              | inl _ => inl (connection_error isGeneratingWork)
              | inr json =>
                  match get_prop json "error" with
                  | inl _ => inl (connection_error isGeneratingWork)
                  | inr error =>
                      if truthy error then inl (connection_error isGeneratingWork)
                      else inr json
                  end
              end
     end).
Proof.
  unfold nanoRpcCall, await_fetch.
  destruct (fetch url _) as [e | elapsed res]; [reflexivity|].
  destruct (timeout <=? elapsed)%N; [reflexivity|].
  simpl. destruct (res_ok res); simpl; [|reflexivity].
  destruct (res_json res) as [e | json]; [reflexivity|].
  simpl. destruct (get_prop json "error") as [e | error]; [reflexivity|].
  simpl. now destruct (truthy error).
Qed.

(** C7. A call of [nanoRpcCall] either returns the parsed JSON or throws
    one of two fixed errors chosen by [isGeneratingWork] alone: the
    work-generation error naming the work-generation URL, or the
    RPC-connection error naming the RPC URL.  A rejected [fetch], a reply
    that comes after the deadline, a non-success status and a JSON body
    with a truthy [error] property all end in that error, whatever
    detail the failure carried. *)
Theorem nanoRpcCall_failure_is_stable `{World} (url : jsval) (action : string)
    (params : list (string * jsval)) (timeout : N) (isGeneratingWork : bool) :
  let call := nanoRpcCall url action params timeout isGeneratingWork in
  let stable :=
    if isGeneratingWork then
      Error "[error_nano_work_generation] Could not connect to Nano Work Generation URL"
    else Error "[error_nano_rpc_connection] Could not connect to Nano RPC URL" in
  (forall e : thrown, outcome call = inl e -> e = stable) /\
  (forall detail : thrown,
     fetch url (rpc_body action params) = FetchRejects detail ->
     outcome call = inl stable) /\
  (forall (elapsed : N) (res : Response),
     fetch url (rpc_body action params) = FetchResolves elapsed res ->
     (timeout <= elapsed)%N ->
     outcome call = inl stable) /\
  (forall (elapsed : N) (res : Response),
     fetch url (rpc_body action params) = FetchResolves elapsed res ->
     res_ok res = false ->
     outcome call = inl stable) /\
  (forall (elapsed : N) (res : Response) (json error : jsval),
     fetch url (rpc_body action params) = FetchResolves elapsed res ->
     res_json res = inr json ->
     get_prop json "error" = inr error ->
     truthy error = true ->
     outcome call = inl stable).
Proof.
  intros call stable.
  assert (Hstable : connection_error isGeneratingWork = stable)
    by (unfold stable; now destruct isGeneratingWork).
  unfold call, outcome. rewrite nanoRpcCall_cases, Hstable. simpl.
  repeat split.
  - destruct (fetch url _) as [d | elapsed res]; [now intros e [= <-]|].
    destruct (timeout <=? elapsed)%N; [now intros e [= <-]|].
    destruct (negb (res_ok res)); [now intros e [= <-]|].
    destruct (res_json res) as [d | json]; [now intros e [= <-]|].
    destruct (get_prop json "error") as [d | error]; [now intros e [= <-]|].
    destruct (truthy error); [now intros e [= <-] | discriminate].
  - intros detail ->. reflexivity.
  - intros elapsed res -> Hlate.
    apply N.leb_le in Hlate. now rewrite Hlate.
  - intros elapsed res -> Hok. rewrite Hok. simpl.
    now destruct (timeout <=? elapsed)%N.
  - intros elapsed res json error -> Hjson Herror Htruthy.
    rewrite Hjson, Herror, Htruthy.
    destruct (timeout <=? elapsed)%N; [reflexivity|].
    now destruct (negb (res_ok res)).
Qed.

Lemma nanoRpcCall_failure_is_stable_witness :
  let W := sample_world (FetchRejects (Error "connect ECONNREFUSED 127.0.0.1:7076")) in
  @fetch W (JStr SAMPLE_NANO_RPC_URL) (rpc_body "account_info" [])
  = FetchRejects (Error "connect ECONNREFUSED 127.0.0.1:7076") /\
  outcome (@nanoRpcCall W (JStr SAMPLE_NANO_RPC_URL) "account_info" [] ONE_MINUTE false)
  = inl (Error "[error_nano_rpc_connection] Could not connect to Nano RPC URL").
Proof.
  intros W. split; [reflexivity|].
  exact (proj1 (proj2 (@nanoRpcCall_failure_is_stable W (JStr SAMPLE_NANO_RPC_URL)
                         "account_info" [] ONE_MINUTE false))
               (Error "connect ECONNREFUSED 127.0.0.1:7076") eq_refl).
Defined.

(** A reply with a success status whose JSON body is an object with the empty string as [error]
    has an explicit [error] field, and [nanoRpcCall] returns it. *)
Lemma nanoRpcCall_returns_falsy_error_field :
  let json := JObj [("error", JStr EmptyString)] in
  let W := sample_world (FetchResolves 10 (json_response json)) in
  assoc_lookup "error" [("error", JStr EmptyString)] = Some (JStr EmptyString) /\
  res_ok (json_response json) = true /\
  @nanoRpcCall W (JStr SAMPLE_NANO_RPC_URL) "account_info" [] ONE_MINUTE false
  = ([EvFetch (JStr SAMPLE_NANO_RPC_URL) [("action", JStr "account_info")] 60000%N],
     inr json).
Proof. vm_compute. repeat split. Qed.

(** C8 (amended). Given a reply within the deadline with a success status
    and a JSON body other than [null], [nanoRpcCall] fails exactly when
    the body's [error] property is truthy; when the property is absent,
    or present with a falsy value (null, false, 0, the empty string), it
    returns the parsed JSON. *)
Theorem nanoRpcCall_error_field_truthiness `{World} (url : jsval) (action : string)
    (params : list (string * jsval)) (timeout : N) (isGeneratingWork : bool)
    (elapsed : N) (res : Response) (json : jsval) :
  fetch url (rpc_body action params) = FetchResolves elapsed res ->
  (elapsed < timeout)%N ->
  res_ok res = true ->
  res_json res = inr json ->
  json ≠ JNull ->
  json ≠ JUndefined ->
  let call := nanoRpcCall url action params timeout isGeneratingWork in
  exists error : jsval,
    get_prop json "error" = inr error /\
    (truthy error = true -> outcome call = inl (connection_error isGeneratingWork)) /\
    (truthy error = false -> outcome call = inr json) /\
    (forall fields : list (string * jsval),
       json = JObj fields -> assoc_lookup "error" fields = None ->
       outcome call = inr json).
Proof.
  intros Hfetch Hintime Hok Hjson Hnull Hundef call.
  assert (Hcall : forall error : jsval,
             get_prop json "error" = inr error ->
             outcome call = if truthy error then inl (connection_error isGeneratingWork)
                            else inr json).
  { intros error Herror. unfold call, outcome.
    rewrite nanoRpcCall_cases, Hfetch. simpl.
    apply N.leb_gt in Hintime. rewrite Hintime, Hok, Hjson, Herror. reflexivity. }
  assert (Hprop : exists error, get_prop json "error" = inr error).
  { destruct json; try (eexists; reflexivity); congruence. }
  destruct Hprop as [error Herror]. exists error.
  split; [exact Herror|]. repeat split.
  - intros Ht. now rewrite (Hcall _ Herror), Ht.
  - intros Ht. now rewrite (Hcall _ Herror), Ht.
  - intros fields -> Hnone.
    rewrite (Hcall JUndefined); [reflexivity|]. simpl. now rewrite Hnone.
Qed.

Lemma nanoRpcCall_error_field_truthiness_witness :
  let json := JObj [("frontier", JStr "00"); ("balance", JStr "50")] in
  let W := sample_world (FetchResolves 10 (json_response json)) in
  outcome (@nanoRpcCall W (JStr SAMPLE_NANO_RPC_URL) "account_info" [] ONE_MINUTE false)
  = inr json.
Proof.
  intros json W.
  destruct (@nanoRpcCall_error_field_truthiness W (JStr SAMPLE_NANO_RPC_URL) "account_info"
              [] ONE_MINUTE false 10 (json_response json) json)
    as [error [_ [_ [_ Habsent]]]].
  - reflexivity.
  - reflexivity.
  - reflexivity.
  - reflexivity.
  - discriminate.
  - discriminate.
  - exact (Habsent _ eq_refl eq_refl).
Defined.

(** ** Configuration validators *)

(** C9. On every string and for both values of [bypassNullCheck], each
    validator returns exactly when the string passes its schema (the URL
    schema, respectively 64 hexadecimal characters) and throws a
    configuration error otherwise.  The flag never changes acceptance: on
    a non-empty string it changes nothing at all, and on the empty
    string, which no schema accepts, it only selects between the
    not-set and the not-valid message. *)
Theorem validators_accept_exactly_schema `{World} (s : string) (bypassNullCheck : bool) :
  URL_schema EmptyString = false ->
  (validateNanoRpcUrl (JStr s) bypassNullCheck = inr tt <-> URL_schema s = true) /\
  (validateNanoWorkGenerationUrl (JStr s) bypassNullCheck = inr tt <-> URL_schema s = true) /\
  (validateNanoAccountPrivateKey (JStr s) bypassNullCheck = inr tt <-> HEX_64 s = true) /\
  (URL_schema s = false ->
     exists m, validateNanoRpcUrl (JStr s) bypassNullCheck = inl (Error m) /\
               has_code ERROR_CONFIG m = true) /\
  (URL_schema s = false ->
     exists m, validateNanoWorkGenerationUrl (JStr s) bypassNullCheck = inl (Error m) /\
               has_code ERROR_CONFIG m = true) /\
  (HEX_64 s = false ->
     exists m, validateNanoAccountPrivateKey (JStr s) bypassNullCheck = inl (Error m) /\
               has_code ERROR_CONFIG m = true) /\
  (s ≠ EmptyString ->
     validateNanoRpcUrl (JStr s) true = validateNanoRpcUrl (JStr s) false /\
     validateNanoWorkGenerationUrl (JStr s) true = validateNanoWorkGenerationUrl (JStr s) false /\
     validateNanoAccountPrivateKey (JStr s) true = validateNanoAccountPrivateKey (JStr s) false) /\
  (s = EmptyString ->
     validateNanoRpcUrl (JStr s) false = inl (Error "[error_config] NANO_RPC_URL is not set") /\
     validateNanoRpcUrl (JStr s) true
     = inl (Error "[error_config] NANO_RPC_URL is not a valid URL") /\
     validateNanoWorkGenerationUrl (JStr s) false
     = inl (Error "[error_config] NANO_WORK_GENERATION_URL is not set") /\
     validateNanoWorkGenerationUrl (JStr s) true
     = inl (Error "[error_config] NANO_WORK_GENERATION_URL is not a valid URL") /\
     validateNanoAccountPrivateKey (JStr s) false
     = inl (Error "[error_config] NANO_ACCOUNT_PRIVATE_KEY is not set") /\
     validateNanoAccountPrivateKey (JStr s) true
     = inl (Error "[error_config] NANO_ACCOUNT_PRIVATE_KEY is not of a valid format (should be 64 hexadecimal characters)")).
Proof.
  intros Hempty.
  unfold validateNanoRpcUrl, validateNanoWorkGenerationUrl, validateNanoAccountPrivateKey.
  destruct s as [|c s].
  - simpl. rewrite Hempty.
    repeat split; try discriminate; try congruence;
      try (destruct bypassNullCheck; discriminate);
      try (intros _; destruct bypassNullCheck; simpl; eexists; split; reflexivity).
  - simpl safeParse. simpl truthy. rewrite !andb_false_r.
    destruct (URL_schema (String c s)), (HEX_64 (String c s)); simpl;
      repeat split; try discriminate; try congruence;
      try (intros _; eexists; split; reflexivity).
Qed.

Lemma validators_accept_exactly_schema_witness :
  let W := sample_world (FetchRejects AbortError) in
  @URL_schema W EmptyString = false /\
  (@validateNanoRpcUrl W (JStr "an_invalid_url") false = inr tt
   <-> @URL_schema W "an_invalid_url" = true) /\
  (validateNanoAccountPrivateKey (JStr SAMPLE_NANO_ACCOUNT_PRIVATE_KEY) false = inr tt
   <-> HEX_64 SAMPLE_NANO_ACCOUNT_PRIVATE_KEY = true).
Proof.
  intros W.
  assert (Hempty : @URL_schema W EmptyString = false) by reflexivity.
  split; [exact Hempty|]. split.
  - exact (proj1 (@validators_accept_exactly_schema W "an_invalid_url" false Hempty)).
  - exact (proj1 (proj2 (proj2 (@validators_accept_exactly_schema W
                                   SAMPLE_NANO_ACCOUNT_PRIVATE_KEY false Hempty)))).
Defined.

(** ** Logged computations *)

Lemma bind_outcome {A B} (m : M A) (k : A -> M B) :
  outcome (bind m k)
  = match outcome m with
    | inl e => inl e
    | inr a => outcome (k a)
    end.
Proof.
  destruct m as [tr [e | a]]; simpl; [reflexivity|].
  now destruct (k a).
Qed.

Lemma bind_trace {A B} (m : M A) (k : A -> M B) :
  trace (bind m k)
  = (trace m ++ match outcome m with
                | inl _ => []
                | inr a => trace (k a)
                end)%list.
Proof.
  destruct m as [tr [e | a]]; simpl; [now rewrite app_nil_r|].
  now destruct (k a).
Qed.

Lemma M_eta {A} (m : M A) : m = (trace m, outcome m).
Proof. now destruct m. Qed.

(** ** Before-hooks *)

Lemma run_before_hooks_cons (index : nat) (hook : Hook) (rest : list Hook)
    (context : WorkGenerationHookContext) :
  run_before_hooks index (hook :: rest) context
  = match hook context with
    | inl e => ([EvBeforeHook index context], inl e)
    | inr context' =>
        (EvBeforeHook index context :: trace (run_before_hooks (S index) rest context'),
         outcome (run_before_hooks (S index) rest context'))
    end.
Proof.
  simpl. unfold bind, emit, lift.
  destruct (hook context) as [e | context']; [reflexivity|].
  now destruct (run_before_hooks (S index) rest context').
Qed.

(** The log of the before-hooks numbers the invocations consecutively
    from the index of the first hook. *)
Lemma run_before_hooks_indices (hooks : list Hook) :
  forall (index : nat) (context : WorkGenerationHookContext),
    map before_hook_index (trace (run_before_hooks index hooks context))
    = map Some (seq index (length (trace (run_before_hooks index hooks context)))).
Proof.
  induction hooks as [|hook rest IH]; intros index context; [reflexivity|].
  rewrite run_before_hooks_cons.
  destruct (hook context) as [e | context']; [reflexivity|].
  simpl. f_equal. apply IH.
Qed.

Lemma run_before_hooks_length (hooks : list Hook) :
  forall (index : nat) (context context' : WorkGenerationHookContext),
    outcome (run_before_hooks index hooks context) = inr context' ->
    length (trace (run_before_hooks index hooks context)) = length hooks.
Proof.
  induction hooks as [|hook rest IH]; intros index context context'; [reflexivity|].
  rewrite run_before_hooks_cons.
  destruct (hook context) as [e | context1]; [discriminate|].
  simpl. intros Hout. f_equal. exact (IH _ _ _ Hout).
Qed.

Lemma run_before_hooks_only_hooks (hooks : list Hook) :
  forall (index : nat) (context : WorkGenerationHookContext),
    forallb is_before_hook (trace (run_before_hooks index hooks context)) = true.
Proof.
  induction hooks as [|hook rest IH]; intros index context; [reflexivity|].
  rewrite run_before_hooks_cons.
  destruct (hook context) as [e | context']; [reflexivity|].
  simpl. apply IH.
Qed.

(** The first hook that throws ends the loop: the log stops at its
    invocation and its error is the outcome. *)
Lemma run_before_hooks_abort (pre : list Hook) (hook : Hook) (post : list Hook)
    (e : thrown) :
  forall (index : nat) (context contextk : WorkGenerationHookContext),
    outcome (run_before_hooks index pre context) = inr contextk ->
    hook contextk = inl e ->
    run_before_hooks index (pre ++ hook :: post) context
    = ((trace (run_before_hooks index pre context)
        ++ [EvBeforeHook (index + length pre) contextk])%list,
       inl e).
Proof.
  induction pre as [|p pre IH]; intros index context contextk Hpre Hhook.
  - simpl in Hpre. injection Hpre as ->.
    rewrite app_nil_l, run_before_hooks_cons, Hhook. simpl.
    now rewrite Nat.add_0_r.
  - rewrite <- app_comm_cons, !run_before_hooks_cons in *.
    destruct (p context) as [e' | context1]; [discriminate|].
    simpl in Hpre. rewrite (IH _ _ _ Hpre Hhook). simpl.
    now rewrite Nat.add_succ_r.
Qed.

Lemma only_hooks_no_work_request (tr : list event) :
  forallb is_before_hook tr = true ->
  forallb (fun ev => negb (is_work_request ev)) tr = true.
Proof.
  induction tr as [|ev tr IH]; [reflexivity|]. simpl.
  intros H. apply andb_prop in H as [Hev Htr].
  rewrite (IH Htr). now destruct ev.
Qed.

(** ** Work generation *)

Lemma try_catch_outcome {A} (m : M A) (handler : thrown -> M A) :
  outcome (try_catch m handler)
  = match outcome m with
    | inl e => outcome (handler e)
    | inr a => inr a
    end.
Proof.
  destruct m as [tr [e | a]]; simpl; [|reflexivity].
  now destruct (handler e).
Qed.

Lemma try_catch_trace {A} (m : M A) (handler : thrown -> M A) :
  trace (try_catch m handler)
  = (trace m ++ match outcome m with
                | inl e => trace (handler e)
                | inr _ => []
                end)%list.
Proof.
  destruct m as [tr [e | a]]; simpl; [|now rewrite app_nil_r].
  now destruct (handler e).
Qed.

Lemma workGenerate_returns_valid `{World} (config : gmap string jsval) (hash : jsval)
    (threshold : string) (workGenerator : option WorkGenerator) (w : jsval) :
  outcome (workGenerate config hash threshold workGenerator) = inr w ->
  verifyWork hash w threshold = true.
Proof.
  unfold workGenerate. rewrite bind_outcome.
  match goal with |- context [outcome ?m] => destruct (outcome m) as [e | work] end;
    [discriminate|].
  cbv beta. rewrite bind_outcome. simpl.
  destruct (verifyWork hash work threshold) eqn:Hv; simpl; [|discriminate].
  now intros [= <-].
Qed.

Lemma workGenerate_rejects_invalid `{World} (config : gmap string jsval) (hash : jsval)
    (threshold : string) (workGenerator : option WorkGenerator) (w : jsval) :
  generator_returns config hash workGenerator w ->
  verifyWork hash w threshold = false ->
  outcome (workGenerate config hash threshold workGenerator)
  = inl (Error "[error_nano_work_generation] Generated work is not valid").
Proof.
  intros Hgen Hv. unfold workGenerate. rewrite bind_outcome.
  destruct workGenerator as [generator|]; simpl in Hgen.
  - rewrite try_catch_outcome, bind_outcome. simpl. rewrite Hgen.
    simpl. now rewrite Hv.
  - destruct Hgen as [response [Hcall Hwork]].
    rewrite try_catch_outcome, bind_outcome, Hcall. simpl. rewrite Hwork.
    simpl. now rewrite Hv.
Qed.

Lemma workGenerate_trace `{World} (config : gmap string jsval) (hash : jsval)
    (threshold : string) (workGenerator : option WorkGenerator) :
  forallb is_work_event (trace (workGenerate config hash threshold workGenerator)) = true.
Proof.
  unfold workGenerate. rewrite bind_trace, forallb_app. apply andb_true_intro. split.
  - destruct workGenerator as [generator|].
    + rewrite try_catch_trace, bind_trace. simpl.
      destruct (generator hash) as [e | w]; [|reflexivity].
      simpl. now destruct (message_of e).
    + rewrite try_catch_trace, bind_trace, nanoRpcCall_cases. simpl.
      match goal with |- context [match ?o with inl _ => _ | inr _ => _ end] =>
        destruct o as [e | response] end; simpl.
      * now destruct (message_of e).
      * destruct (get_prop response "work") as [e | w]; simpl; [|reflexivity].
        now destruct (message_of e).
  - match goal with |- context [outcome ?m] => destruct (outcome m) as [e | work] end;
      [reflexivity|].
    cbv beta. rewrite bind_trace. simpl.
    now destruct (verifyWork hash work threshold).
Qed.

Lemma run_after_hooks_trace (hooks : list Hook) (w : jsval) :
  forall (index : nat) (context : WorkGenerationHookContext),
    forallb (fun ev => negb (is_before_hook ev) && negb (is_sign ev))
            (trace (run_after_hooks index hooks w context)) = true.
Proof.
  induction hooks as [|hook rest IH]; intros index context; [reflexivity|].
  simpl. unfold bind, emit, lift.
  destruct (hook _) as [e | context']; [reflexivity|].
  specialize (IH (S index) context').
  destruct (run_after_hooks (S index) rest w context'). simpl. exact IH.
Qed.

Lemma forallb_weaken (P Q : event -> bool) (tr : list event) :
  (forall ev, P ev = true -> Q ev = true) ->
  forallb P tr = true -> forallb Q tr = true.
Proof.
  intros HPQ. induction tr as [|ev tr IH]; [reflexivity|]. simpl.
  intros H'. apply andb_prop in H' as [Hev Htr].
  now rewrite (HPQ _ Hev), (IH Htr).
Qed.

Lemma createBlock_unfold `{World} (config : gmap string jsval)
    (representative balance link previous : jsval)
    (before after : list Hook) (workGenerator : option WorkGenerator) :
  createBlock config representative balance link previous before after workGenerator
  = bind (run_before_hooks 0 before
            {| ctx_representative := representative; ctx_balance := balance;
               ctx_link := link; ctx_previous := previous; ctx_work := JUndefined |})
      (fun context =>
         bind (workGenerate config previous SEND_BLOCK_WORK_THRESHOLD workGenerator)
           (fun work =>
              bind (run_after_hooks 0 after work context)
                (fun _ =>
                   if truthy work then
                     let fields :=
                       {| bf_representative := representative; bf_balance := balance;
                          bf_work := work; bf_link := link; bf_previous := previous |} in
                     let privateKey := cfg_get config NANO_ACCOUNT_PRIVATE_KEY_PROPERTY in
                     bind (emit (EvSign privateKey fields))
                       (fun _ =>
                          bind (lift (N_createBlock privateKey fields))
                            (fun block =>
                               ret (with_account block (normalize_account (account block)))))
                   else
                     throw (Error (tagged ERROR_NANO_WORK_GENERATION
                                     "No work generated during creation of Nano send block"))))).
Proof. reflexivity. Qed.

(** After the before-hooks, nothing that is logged is a before-hook. *)
Lemma createBlock_rest_trace `{World} (config : gmap string jsval)
    (representative balance link previous : jsval)
    (after : list Hook) (workGenerator : option WorkGenerator)
    (context : WorkGenerationHookContext) :
  forallb (fun ev => negb (is_before_hook ev))
    (trace
       (bind (workGenerate config previous SEND_BLOCK_WORK_THRESHOLD workGenerator)
          (fun work =>
             bind (run_after_hooks 0 after work context)
               (fun _ =>
                  if truthy work then
                    let fields :=
                      {| bf_representative := representative; bf_balance := balance;
                         bf_work := work; bf_link := link; bf_previous := previous |} in
                    let privateKey := cfg_get config NANO_ACCOUNT_PRIVATE_KEY_PROPERTY in
                    bind (emit (EvSign privateKey fields))
                      (fun _ =>
                         bind (lift (N_createBlock privateKey fields))
                           (fun block =>
                              ret (with_account block (normalize_account (account block)))))
                  else
                    throw (Error (tagged ERROR_NANO_WORK_GENERATION
                                    "No work generated during creation of Nano send block"))))))
  = true.
Proof.
  rewrite bind_trace, forallb_app. apply andb_true_intro. split.
  - apply (forallb_weaken is_work_event); [now intros [] | apply workGenerate_trace].
  - destruct (outcome (workGenerate _ _ _ _)) as [e | work]; [reflexivity|].
    cbv beta. rewrite bind_trace, forallb_app. apply andb_true_intro. split.
    + eapply forallb_weaken; [|apply run_after_hooks_trace].
      intros ev Hev. now apply andb_prop in Hev as [-> _].
    + destruct (outcome (run_after_hooks _ _ _ _)) as [e | c]; [reflexivity|].
      cbv beta. destruct (truthy work); [|reflexivity].
      cbv zeta. rewrite bind_trace. simpl. now destruct (N_createBlock _ _).
Qed.

(** C2. [workGenerate] returns a token only if [verifyWork] accepts it
    against the threshold; when the generator call itself went through
    (custom generator or [work_generate] request) with a token that
    [verifyWork] rejects, [workGenerate] throws the work-generation error
    "Generated work is not valid"; and [createBlock] then never reaches
    the signing routine: its log has no signing event and it throws,
    with that very error once the before-hooks have all returned. *)
Theorem workGenerate_validates_work `{World} (config : gmap string jsval)
    (workGenerator : option WorkGenerator) :
  (forall (hash : jsval) (threshold : string) (w : jsval),
     outcome (workGenerate config hash threshold workGenerator) = inr w ->
     verifyWork hash w threshold = true) /\
  (forall (hash : jsval) (threshold : string) (w : jsval),
     generator_returns config hash workGenerator w ->
     verifyWork hash w threshold = false ->
     outcome (workGenerate config hash threshold workGenerator)
     = inl (Error "[error_nano_work_generation] Generated work is not valid")) /\
  (forall (representative balance link previous w : jsval) (before after : list Hook),
     generator_returns config previous workGenerator w ->
     verifyWork previous w SEND_BLOCK_WORK_THRESHOLD = false ->
     let build :=
       createBlock config representative balance link previous before after workGenerator in
     forallb (fun ev => negb (is_sign ev)) (trace build) = true /\
     (exists e : thrown, outcome build = inl e) /\
     (forall context : WorkGenerationHookContext,
        outcome (run_before_hooks 0 before
                   {| ctx_representative := representative; ctx_balance := balance;
                      ctx_link := link; ctx_previous := previous;
                      ctx_work := JUndefined |}) = inr context ->
        outcome build
        = inl (Error "[error_nano_work_generation] Generated work is not valid"))).
Proof.
  split; [|split].
  - intros hash threshold w. apply workGenerate_returns_valid.
  - intros hash threshold w. apply workGenerate_rejects_invalid.
  - intros representative balance link previous w before after Hgen Hv build.
    pose proof (workGenerate_rejects_invalid config previous SEND_BLOCK_WORK_THRESHOLD
                  workGenerator w Hgen Hv) as Hwg.
    unfold build. rewrite createBlock_unfold.
    rewrite bind_trace, bind_outcome, forallb_app.
    pose proof (run_before_hooks_only_hooks before 0
                  {| ctx_representative := representative; ctx_balance := balance;
                     ctx_link := link; ctx_previous := previous;
                     ctx_work := JUndefined |}) as Hhooks.
    apply (forallb_weaken _ (fun ev => negb (is_sign ev))) in Hhooks; [|now intros []].
    rewrite Hhooks. simpl.
    destruct (outcome (run_before_hooks _ _ _)) as [e | context].
    + split; [reflexivity|]. split; [now exists e | discriminate].
    + cbv beta. rewrite bind_trace, bind_outcome, Hwg, app_nil_r.
      split; [|split; [eexists; reflexivity | reflexivity]].
      apply (forallb_weaken is_work_event); [now intros [] | apply workGenerate_trace].
Qed.

Lemma workGenerate_validates_work_witness :
  let W := sample_world (FetchResolves 10 (json_response (JObj [("work", JStr "0000000000000000")]))) in
  @generator_returns W sample_config (JStr "00") None (JStr "0000000000000000") /\
  @verifyWork W (JStr "00") (JStr "0000000000000000") "fffffff800000000" = false /\
  outcome (@workGenerate W sample_config (JStr "00") "fffffff800000000" None)
  = inl (Error "[error_nano_work_generation] Generated work is not valid").
Proof.
  intros W.
  assert (Hgen : @generator_returns W sample_config (JStr "00") None (JStr "0000000000000000")).
  { eexists. split; reflexivity. }
  assert (Hv : @verifyWork W (JStr "00") (JStr "0000000000000000") "fffffff800000000" = false)
    by reflexivity.
  split; [exact Hgen|]. split; [exact Hv|].
  exact (proj1 (proj2 (@workGenerate_validates_work W sample_config None)) _ _ _ Hgen Hv).
Defined.

(** C5. In [createBlock] the before-hooks are invoked one after the other
    in registration order, and everything else - work generation first
    of all - is logged after them.  When a before-hook throws, the build
    stops there: the outcome is the hook's own error, the log ends with
    that hook's invocation, so no later hook ran, and no request for
    work, by RPC or to the custom generator, was made. *)
Theorem createBlock_before_hooks_first `{World} (config : gmap string jsval)
    (representative balance link previous : jsval)
    (before after : list Hook) (workGenerator : option WorkGenerator) :
  let context0 :=
    {| ctx_representative := representative; ctx_balance := balance;
       ctx_link := link; ctx_previous := previous; ctx_work := JUndefined |} in
  let build :=
    createBlock config representative balance link previous before after workGenerator in
  let hooks_run := run_before_hooks 0 before context0 in
  (exists rest : list event,
     trace build = (trace hooks_run ++ rest)%list /\
     forallb is_before_hook (trace hooks_run) = true /\
     map before_hook_index (trace hooks_run)
     = map Some (seq 0 (length (trace hooks_run))) /\
     forallb (fun ev => negb (is_before_hook ev)) rest = true /\
     (forall context : WorkGenerationHookContext,
        outcome hooks_run = inr context -> length (trace hooks_run) = length before)) /\
  (forall (pre : list Hook) (hook : Hook) (post : list Hook) (e : thrown)
          (contextk : WorkGenerationHookContext),
     before = (pre ++ hook :: post)%list ->
     outcome (run_before_hooks 0 pre context0) = inr contextk ->
     hook contextk = inl e ->
     build = ((trace (run_before_hooks 0 pre context0)
               ++ [EvBeforeHook (length pre) contextk])%list, inl e) /\
     length (trace build) = S (length pre) /\
     forallb is_before_hook (trace build) = true /\
     forallb (fun ev => negb (is_work_request ev)) (trace build) = true).
Proof.
  intros context0 build hooks_run. split.
  - eexists. split; [|split; [|split; [|split]]].
    + unfold build. rewrite createBlock_unfold, bind_trace. reflexivity.
    + apply run_before_hooks_only_hooks.
    + apply run_before_hooks_indices.
    + fold context0. fold hooks_run.
      destruct (outcome hooks_run) as [e | context]; [reflexivity|].
      apply createBlock_rest_trace.
    + intros context. apply run_before_hooks_length.
  - intros pre hook post e contextk -> Hpre Hhook.
    assert (Hbuild : build = ((trace (run_before_hooks 0 pre context0)
                               ++ [EvBeforeHook (length pre) contextk])%list, inl e)).
    { unfold build. rewrite createBlock_unfold. fold context0.
      now rewrite (run_before_hooks_abort pre hook post e 0 context0 contextk Hpre Hhook). }
    assert (Hall : forallb is_before_hook (trace build) = true).
    { rewrite Hbuild. simpl. rewrite forallb_app, run_before_hooks_only_hooks. reflexivity. }
    split; [exact Hbuild|]. split; [|split; [exact Hall|]].
    + rewrite Hbuild. simpl. rewrite length_app, (run_before_hooks_length _ _ _ _ Hpre).
      simpl. lia.
    + now apply only_hooks_no_work_request.
Qed.

Lemma createBlock_before_hooks_first_witness :
  let W := sample_world (FetchRejects AbortError) in
  outcome (run_before_hooks 0 [sample_hook_ok] sample_context) = inr sample_context /\
  sample_hook_throws sample_context = inl (Error "audit log unavailable") /\
  @createBlock W sample_config (JStr "nano_1rep") (JStr "20") (JStr "nano_1dest") (JStr "00")
     [sample_hook_ok; sample_hook_throws; sample_hook_ok] [] None
  = ([EvBeforeHook 0 sample_context; EvBeforeHook 1 sample_context],
     inl (Error "audit log unavailable")).
Proof.
  intros W.
  assert (Hpre : outcome (run_before_hooks 0 [sample_hook_ok] sample_context)
                 = inr sample_context) by reflexivity.
  assert (Hhook : sample_hook_throws sample_context = inl (Error "audit log unavailable"))
    by reflexivity.
  split; [exact Hpre|]. split; [exact Hhook|].
  exact (proj1 (proj2 (@createBlock_before_hooks_first W sample_config
                         (JStr "nano_1rep") (JStr "20") (JStr "nano_1dest") (JStr "00")
                         [sample_hook_ok; sample_hook_throws; sample_hook_ok] [] None)
                      [sample_hook_ok] sample_hook_throws [sample_hook_ok]
                      (Error "audit log unavailable") sample_context
                      eq_refl Hpre Hhook)).
Defined.

(** ** Send-block generation *)

Lemma bind_lift_inr {A B} (a : A) (k : A -> M B) : bind (lift (inr a)) k = k a.
Proof. unfold bind, lift. now destruct (k a). Qed.

Lemma get_prop_defined (v : jsval) (k k' : string) (x : jsval) :
  get_prop v k = inr x -> exists y : jsval, get_prop v k' = inr y.
Proof. destruct v; simpl; intros Hx; try discriminate Hx; eexists; reflexivity. Qed.

Lemma getAccountInfo_trace `{World} (this : Helper) (account info : jsval) :
  outcome (getAccountInfo this account) = inr info ->
  trace (getAccountInfo this account)
  = [EvFetch (cfg_get (config this) "NANO_RPC_URL")
       [("action", JStr "account_info"); ("account", account);
        ("representative", JStr "true")]
       ONE_MINUTE].
Proof.
  unfold getAccountInfo.
  destruct (validateNanoRpcUrl _ false) as [e | []]; [discriminate|].
  rewrite bind_lift_inr, nanoRpcCall_cases. reflexivity.
Qed.

(** C6. When the configuration is valid and the [account_info] lookup
    returns a response without a [frontier], [generateSendBlock] throws
    the block-generation error; its log holds the [account_info] request
    and nothing else: no balance computation and no request for work. *)
Theorem generateSendBlock_no_frontier `{World} (this : Helper)
    (params : GenerateSendBlockParams) (sourceAccount : string) (info : jsval) :
  validateNanoRpcUrl (cfg_get (config this) "NANO_RPC_URL") false = inr tt ->
  validateNanoAccountPrivateKey
    (cfg_get (config this) NANO_ACCOUNT_PRIVATE_KEY_PROPERTY) false = inr tt ->
  validateNanoWorkGenerationUrl
    (cfg_get (config this) "NANO_WORK_GENERATION_URL") false = inr tt ->
  getAccount (config this) = inr sourceAccount ->
  outcome (getAccountInfo this (JStr sourceAccount)) = inr info ->
  get_prop info "frontier" = inr JUndefined ->
  let run := generateSendBlock this params in
  outcome run
  = inl (Error "[error_block_generation] Source account has no frontier (unopened account)") /\
  trace run
  = [EvFetch (cfg_get (config this) "NANO_RPC_URL")
       [("action", JStr "account_info"); ("account", JStr sourceAccount);
        ("representative", JStr "true")]
       ONE_MINUTE] /\
  forallb (fun ev => negb (is_balance ev) && negb (is_work_request ev)) (trace run) = true.
Proof.
  intros Hrpc Hkey Hwork Haccount Hinfo Hfrontier run.
  destruct (get_prop_defined info "frontier" "balance" _ Hfrontier) as [b Hbalance].
  assert (Hrun : run = (trace (getAccountInfo this (JStr sourceAccount)), inl no_frontier_error)).
  { unfold run, generateSendBlock.
    rewrite Hrpc, Hkey, Hwork, Haccount, !bind_lift_inr.
    rewrite (M_eta (getAccountInfo this (JStr sourceAccount))), Hinfo.
    unfold bind at 1. rewrite Hbalance, bind_lift_inr, Hfrontier, bind_lift_inr.
    simpl. now rewrite app_nil_r. }
  rewrite Hrun, (getAccountInfo_trace _ _ _ Hinfo).
  repeat split.
Qed.

Lemma generateSendBlock_no_frontier_witness :
  let W := sample_world (FetchResolves 10 (json_response (JObj [("balance", JStr "50")]))) in
  let this := constructor (Some sample_config) in
  outcome (@generateSendBlock W this {| payTo := JStr "nano_1dest"; amount := JStr "30" |})
  = inl (Error "[error_block_generation] Source account has no frontier (unopened account)").
Proof.
  intros W this.
  refine (proj1 (@generateSendBlock_no_frontier W this
                   {| payTo := JStr "nano_1dest"; amount := JStr "30" |}
                   "nano_1sample" (JObj [("balance", JStr "50")]) _ _ _ _ _ _));
    vm_compute; reflexivity.
Defined.

(** ** The repository's tests, and two complete runs *)

Example test_balance_large :
  calculateBalanceAfterSend (JStr "2000000000000000000000000000000")
                            (JStr "1000000000000000000000000000000")
  = inr "1000000000000000000000000000000".
Proof. vm_compute. reflexivity. Qed.

Example test_balance_small :
  calculateBalanceAfterSend (JStr "50") (JStr "30") = inr "20".
Proof. reflexivity. Qed.

Example test_balance_insufficient :
  calculateBalanceAfterSend (JStr "1000000000000000000000000000000")
                            (JStr "2000000000000000000000000000000")
  = inl (Error "[error_insufficient_nano_balance] Insufficient balance to perform Nano send transaction").
Proof. vm_compute. reflexivity. Qed.

Example test_private_key_valid :
  validateNanoAccountPrivateKey (JStr SAMPLE_NANO_ACCOUNT_PRIVATE_KEY) false = inr tt.
Proof. vm_compute. reflexivity. Qed.

Example test_private_key_null :
  validateNanoAccountPrivateKey JNull true
  = inl (Error "[error_config] NANO_ACCOUNT_PRIVATE_KEY is not of a valid format (should be 64 hexadecimal characters)").
Proof. reflexivity. Qed.

Example test_config_without_key :
  getConfig (constructor (Some sample_config))
  = <["NANO_WORK_GENERATION_URL" := JStr SAMPLE_NANO_RPC_URL]>
      (<["NANO_RPC_URL" := JStr SAMPLE_NANO_RPC_URL]> ∅).
Proof. vm_compute. reflexivity. Qed.

(** A body that is the JSON [null] has no [error] field either, and the
    property read on it throws inside the [try]: the call fails. *)
Example null_body_fails :
  outcome (@nanoRpcCall (sample_world (FetchResolves 10 (json_response JNull)))
             (JStr SAMPLE_NANO_RPC_URL) "account_info" [] ONE_MINUTE false)
  = inl (Error "[error_nano_rpc_connection] Could not connect to Nano RPC URL").
Proof. reflexivity. Qed.

(** A send through the RPC work generator: account lookup, balance,
    work request, verification, signature, in that order, and the legacy
    prefix of the signed block rewritten. *)
Example send_block_run :
  let W := sample_world (FetchResolves 10 (json_response sample_account_info)) in
  let run := @generateSendBlock W (constructor (Some sample_config))
               {| payTo := JStr "nano_1dest"; amount := JStr "30" |} in
  map is_work_event (trace run) = [true; false; true; true; false] /\
  map is_balance (trace run) = [false; true; false; false; false] /\
  map is_sign (trace run) = [false; false; false; false; true] /\
  match outcome run with
  | inr block => account block = "nano_1sample" /\ balance block = JStr "20"
                 /\ work block = JStr "baeb18003600c19c"
  | inl _ => False
  end.
Proof. vm_compute. repeat split. Qed.

(** The same send with an insufficient balance stops before any request
    for work. *)
Example send_block_insufficient :
  let W := sample_world (FetchResolves 10 (json_response sample_account_info)) in
  let run := @generateSendBlock W (constructor (Some sample_config))
               {| payTo := JStr "nano_1dest"; amount := JStr "51" |} in
  outcome run
  = inl (Error "[error_insufficient_nano_balance] Insufficient balance to perform Nano send transaction")
  /\ forallb (fun ev => negb (is_work_request ev)) (trace run) = true.
Proof. vm_compute. repeat split. Qed.

(** * Further properties *)

(** ** Validators on values that are no strings *)

(** X1. A value that is no string - [undefined], [null], a boolean, a
    number, an array, an object - is rejected by the three validators
    with a configuration error for both values of [bypassNullCheck]: the
    not-set message when the check is on and the value is falsy, the
    not-valid message otherwise. *)
Theorem validators_reject_non_strings `{World} (v : jsval) (bypassNullCheck : bool) :
  (forall s : string, v <> JStr s) ->
  let unset := negb bypassNullCheck && negb (truthy v) in
  validateNanoRpcUrl v bypassNullCheck
  = inl (Error (if unset then "[error_config] NANO_RPC_URL is not set"
                else "[error_config] NANO_RPC_URL is not a valid URL")) /\
  validateNanoWorkGenerationUrl v bypassNullCheck
  = inl (Error (if unset then "[error_config] NANO_WORK_GENERATION_URL is not set"
                else "[error_config] NANO_WORK_GENERATION_URL is not a valid URL")) /\
  validateNanoAccountPrivateKey v bypassNullCheck
  = inl (Error (if unset then "[error_config] NANO_ACCOUNT_PRIVATE_KEY is not set"
                else "[error_config] NANO_ACCOUNT_PRIVATE_KEY is not of a valid format (should be 64 hexadecimal characters)")).
Proof.
  intros Hv unset.
  assert (Hparse : forall schema, safeParse schema v = false).
  { intros schema. destruct v; try reflexivity. now destruct (Hv s). }
  unfold validateNanoRpcUrl, validateNanoWorkGenerationUrl, validateNanoAccountPrivateKey.
  rewrite !Hparse. fold unset. now destruct unset.
Qed.

Lemma validators_reject_non_strings_witness :
  let W := sample_world (FetchRejects AbortError) in
  (forall s : string, JNull <> JStr s) /\
  @validateNanoRpcUrl W JNull true
  = inl (Error "[error_config] NANO_RPC_URL is not a valid URL") /\
  validateNanoAccountPrivateKey JNull false
  = inl (Error "[error_config] NANO_ACCOUNT_PRIVATE_KEY is not set").
Proof.
  intros W.
  assert (Hv : forall s : string, JNull <> JStr s) by discriminate.
  split; [exact Hv|]. split.
  - exact (proj1 (@validators_reject_non_strings W JNull true Hv)).
  - exact (proj2 (proj2 (@validators_reject_non_strings W JNull false Hv))).
Defined.

(** ** Balance arithmetic *)

Lemma calculateBalanceAfterSend_value (a b : string) (x y : N) :
  decimal_value a = Some x ->
  decimal_value b = Some y ->
  calculateBalanceAfterSend (JStr a) (JStr b)
  = if (y <=? x)%N then inr (decimal_of_N (x - y)) else inl insufficient_balance_error.
Proof.
  intros Ha Hb.
  unfold calculateBalanceAfterSend, BigNumber_of, BigNumber.minus. simpl ToString.
  rewrite (BigNumber_new_decimal _ _ Ha), (BigNumber_new_decimal _ _ Hb).
  unfold BigNumber.lt, BigNumber.toFixed.
  destruct (N.leb_spec y x) as [Hle | Hgt];
    destruct (Z.ltb_spec (Z.of_N x - Z.of_N y) 0) as [Hlt | Hge]; try lia.
  - now replace (Z.to_N (Z.of_N x - Z.of_N y)) with (x - y)%N by lia.
  - reflexivity.
Qed.

Lemma canonical_decimal_STRING_INT (s : string) :
  canonical_decimal s = true -> STRING_INT s = true.
Proof.
  destruct s as [|c s]; [discriminate|].
  destruct (ascii_dec c "0") as [-> | Hc].
  - simpl. now destruct s.
  - assert (canonical_decimal (String c s) = all_digits (String c s)) as ->; [|trivial].
    destruct c as [[] [] [] [] [] [] [] []]; try reflexivity. now destruct Hc.
Qed.

Lemma STRING_INT_decimal_of_N (n : N) : STRING_INT (decimal_of_N n) = true.
Proof. apply canonical_decimal_STRING_INT, canonical_decimal_of_N. Qed.

(** X2. Balances stay ledger amounts, and sends add up.  What
    [calculateBalanceAfterSend] returns on digit strings is again a
    non-empty digit string, and sending [c] from what is left after
    sending [b] gives what sending [b + c] at once gives: the same
    balance, or the insufficient-balance error in both cases. *)
Theorem calculateBalanceAfterSend_composes (a b c r : string) :
  STRING_INT a = true -> STRING_INT b = true -> STRING_INT c = true ->
  calculateBalanceAfterSend (JStr a) (JStr b) = inr r ->
  STRING_INT r = true /\
  exists y z : N,
    decimal_value b = Some y /\ decimal_value c = Some z /\
    calculateBalanceAfterSend (JStr r) (JStr c)
    = calculateBalanceAfterSend (JStr a) (JStr (decimal_of_N (y + z))).
Proof.
  intros Ha Hb Hc Hr.
  destruct (STRING_INT_decimal_value _ Ha) as [x Hx].
  destruct (STRING_INT_decimal_value _ Hb) as [y Hy].
  destruct (STRING_INT_decimal_value _ Hc) as [z Hz].
  rewrite (calculateBalanceAfterSend_value _ _ _ _ Hx Hy) in Hr.
  destruct (N.leb_spec y x) as [Hle | Hgt]; [|discriminate].
  injection Hr as <-.
  split; [apply STRING_INT_decimal_of_N|].
  exists y, z. split; [exact Hy|]. split; [exact Hz|].
  rewrite (calculateBalanceAfterSend_value _ _ _ _ (decimal_value_of_N _) Hz).
  rewrite (calculateBalanceAfterSend_value _ _ _ _ Hx (decimal_value_of_N _)).
  destruct (N.leb_spec z (x - y)), (N.leb_spec (y + z) x); try lia; [|reflexivity].
  now replace (x - y - z)%N with (x - (y + z))%N by lia.
Qed.

Lemma calculateBalanceAfterSend_composes_witness :
  STRING_INT "20" = true /\
  exists y z : N,
    decimal_value "30" = Some y /\ decimal_value "15" = Some z /\
    calculateBalanceAfterSend (JStr "20") (JStr "15")
    = calculateBalanceAfterSend (JStr "50") (JStr (decimal_of_N (y + z))).
Proof.
  apply (calculateBalanceAfterSend_composes "50" "30" "15" "20"); reflexivity.
Defined.

(** X3. Leading zeros of the inputs do not matter and never reach the
    output: sending nothing returns the balance in canonical form, and
    sending the whole balance, however either amount is written, leaves
    exactly ["0"]. *)
Theorem calculateBalanceAfterSend_normalises (a b zero : string) (x : N) :
  decimal_value a = Some x ->
  decimal_value b = Some x ->
  decimal_value zero = Some 0%N ->
  calculateBalanceAfterSend (JStr a) (JStr zero) = inr (decimal_of_N x) /\
  calculateBalanceAfterSend (JStr a) (JStr b) = inr "0" /\
  canonical_decimal (decimal_of_N x) = true /\
  decimal_value (decimal_of_N x) = Some x.
Proof.
  intros Ha Hb Hzero.
  rewrite (calculateBalanceAfterSend_value a zero x 0 Ha Hzero).
  rewrite (calculateBalanceAfterSend_value a b x x Ha Hb).
  assert (H0 : (0 <=? x)%N = true) by (apply N.leb_le; lia).
  rewrite H0, N.leb_refl, N.sub_diag, N.sub_0_r.
  repeat split; [apply canonical_decimal_of_N | apply decimal_value_of_N].
Qed.

Lemma calculateBalanceAfterSend_normalises_witness :
  calculateBalanceAfterSend (JStr "0050") (JStr "000") = inr "50" /\
  calculateBalanceAfterSend (JStr "0050") (JStr "50") = inr "0".
Proof.
  destruct (calculateBalanceAfterSend_normalises "0050" "50" "000" 50 eq_refl eq_refl eq_refl)
    as [H0 [Hall _]].
  split; [exact H0 | exact Hall].
Defined.

(** ** The RPC client, continued *)

Lemma assoc_lookup_set (k k' : string) (v : jsval) (fields : list (string * jsval)) :
  assoc_lookup k (assoc_set k' v fields)
  = if String.eqb k k' then Some v else assoc_lookup k fields.
Proof.
  induction fields as [|[k0 v0] fields IH]; simpl.
  - reflexivity.
  - destruct (String.eqb_spec k' k0) as [-> | Hne]; simpl.
    + now destruct (String.eqb k k0).
    + rewrite IH. destruct (String.eqb_spec k k') as [-> | Hne'].
      * apply String.eqb_neq in Hne. now rewrite Hne.
      * reflexivity.
Qed.

Lemma assoc_lookup_spread_absent (k : string) (b : list (string * jsval)) :
  assoc_lookup k b = None ->
  forall a, assoc_lookup k (spread a b) = assoc_lookup k a.
Proof.
  unfold spread. induction b as [|[k0 v0] b IH]; simpl; intros Hk a; [reflexivity|].
  destruct (String.eqb_spec k k0) as [-> | Hne]; [discriminate|].
  rewrite (IH Hk), assoc_lookup_set.
  apply String.eqb_neq in Hne. now rewrite Hne.
Qed.

Lemma nanoRpcCall_thrown `{World} (url : jsval) (action : string)
    (params : list (string * jsval)) (timeout : N) (isGeneratingWork : bool) (e : thrown) :
  outcome (nanoRpcCall url action params timeout isGeneratingWork) = inl e ->
  e = connection_error isGeneratingWork.
Proof.
  unfold outcome. rewrite nanoRpcCall_cases. simpl.
  destruct (fetch url _) as [d | elapsed res]; [now intros [= <-]|].
  destruct (timeout <=? elapsed)%N; [now intros [= <-]|].
  destruct (negb (res_ok res)); [now intros [= <-]|].
  destruct (res_json res) as [d | json]; [now intros [= <-]|].
  destruct (get_prop json "error") as [d | error]; [now intros [= <-]|].
  destruct (truthy error); [now intros [= <-] | discriminate].
Qed.

Lemma nanoRpcCall_returned `{World} (url : jsval) (action : string)
    (params : list (string * jsval)) (timeout : N) (isGeneratingWork : bool) (json : jsval) :
  outcome (nanoRpcCall url action params timeout isGeneratingWork) = inr json ->
  (exists error : jsval, get_prop json "error" = inr error /\ truthy error = false) /\
  (exists (elapsed : N) (res : Response),
     fetch url (rpc_body action params) = FetchResolves elapsed res /\
     (elapsed < timeout)%N /\ res_ok res = true /\ res_json res = inr json).
Proof.
  unfold outcome. rewrite nanoRpcCall_cases. simpl.
  destruct (fetch url _) as [d | elapsed res]; [discriminate|].
  destruct (N.leb_spec timeout elapsed) as [Hlate | Hintime]; [discriminate|].
  destruct (res_ok res) eqn:Hok; [|discriminate]. simpl.
  destruct (res_json res) as [d | json'] eqn:Hjson; [discriminate|].
  destruct (get_prop json' "error") as [d | error] eqn:Herror; [discriminate|].
  destruct (truthy error) eqn:Htruthy; [discriminate|].
  intros [= <-]. split; [now exists error | now exists elapsed, res].
Qed.

Lemma nanoRpcCall_returned_prop `{World} (url : jsval) (action : string)
    (params : list (string * jsval)) (timeout : N) (isGeneratingWork : bool)
    (json : jsval) (k : string) :
  outcome (nanoRpcCall url action params timeout isGeneratingWork) = inr json ->
  exists x : jsval, get_prop json k = inr x.
Proof.
  intros Hcall. destruct (nanoRpcCall_returned _ _ _ _ _ _ Hcall) as [[error [Herror _]] _].
  exact (get_prop_defined _ _ _ _ Herror).
Qed.

Lemma nanoRpcCall_trace `{World} (url : jsval) (action : string)
    (params : list (string * jsval)) (timeout : N) (isGeneratingWork : bool) :
  trace (nanoRpcCall url action params timeout isGeneratingWork)
  = [EvFetch url (rpc_body action params) timeout].
Proof. now rewrite nanoRpcCall_cases. Qed.

(** X4. [nanoRpcCall] sends one request and never a second one, whatever
    the outcome; the request carries the given action unless the
    parameters themselves have an [action] key; and a value it returns
    is the JSON body of a reply that came before the deadline with a
    success status: it is neither [null] nor [undefined], and its [error]
    property is falsy. *)
Theorem nanoRpcCall_single_request `{World} (url : jsval) (action : string)
    (params : list (string * jsval)) (timeout : N) (isGeneratingWork : bool) :
  let call := nanoRpcCall url action params timeout isGeneratingWork in
  trace call = [EvFetch url (rpc_body action params) timeout] /\
  (assoc_lookup "action" params = None ->
   assoc_lookup "action" (rpc_body action params) = Some (JStr action)) /\
  (forall json : jsval,
     outcome call = inr json ->
     json <> JNull /\ json <> JUndefined /\
     (exists error : jsval, get_prop json "error" = inr error /\ truthy error = false) /\
     (exists (elapsed : N) (res : Response),
        fetch url (rpc_body action params) = FetchResolves elapsed res /\
        (elapsed < timeout)%N /\ res_ok res = true /\ res_json res = inr json)).
Proof.
  intros call. split; [apply nanoRpcCall_trace|]. split.
  - intros Hnone. unfold rpc_body. rewrite (assoc_lookup_spread_absent _ _ Hnone).
    reflexivity.
  - intros json Hjson.
    destruct (nanoRpcCall_returned _ _ _ _ _ _ Hjson) as [[error [Herror Hfalsy]] Hreply].
    split; [intros ->; discriminate|]. split; [intros ->; discriminate|].
    split; [now exists error | exact Hreply].
Qed.

Lemma nanoRpcCall_single_request_witness :
  let W := sample_world (FetchResolves 10 (json_response sample_account_info)) in
  assoc_lookup "action" [("hash", JStr "00")] = None /\
  assoc_lookup "action" (rpc_body "work_generate" [("hash", JStr "00")])
  = Some (JStr "work_generate") /\
  sample_account_info <> JNull.
Proof.
  intros W.
  destruct (@nanoRpcCall_single_request W (JStr SAMPLE_NANO_RPC_URL) "work_generate"
              [("hash", JStr "00")] ONE_MINUTE true) as [_ [Haction Hret]].
  split; [reflexivity|]. split; [exact (Haction eq_refl)|].
  exact (proj1 (Hret sample_account_info eq_refl)).
Defined.

(** ** Work generation, continued *)

Lemma bind_lift_inl {A B} (e : thrown) (k : A -> M B) : bind (lift (inl e)) k = ([], inl e).
Proof. reflexivity. Qed.

Lemma workGenerate_custom_cases `{World} (config : gmap string jsval) (hash : jsval)
    (threshold : string) (generator : WorkGenerator) :
  workGenerate config hash threshold (Some generator)
  = match generator hash with
    | inr w =>
        ([EvCustomWork hash; EvVerifyWork hash w threshold],
         if verifyWork hash w threshold then inr w
         else inl (Error "[error_nano_work_generation] Generated work is not valid"))
    | inl error =>
        ([EvCustomWork hash],
         match message_of error with
         | inr message =>
             inl (Error ("[error_nano_work_generation] Error during custom work generation "
                         ++ LF ++ "Cause: " ++ ToString message))
         | inl e => inl e
         end)
    end.
Proof.
  unfold workGenerate, try_catch, bind, emit, lift, ret, throw. simpl.
  destruct (generator hash) as [error | w]; simpl.
  - now destruct (message_of error).
  - now destruct (verifyWork hash w threshold).
Qed.

(** X5. With a custom generator, [workGenerate] makes no HTTP request and
    does not look at the configuration: it calls the generator once with
    the hash, and on a token calls [verifyWork] once and returns that
    very token or the not-valid error. *)
Theorem workGenerate_custom_generator `{World} (config : gmap string jsval) (hash : jsval)
    (threshold : string) (generator : WorkGenerator) :
  let run := workGenerate config hash threshold (Some generator) in
  forallb (fun ev => negb (is_fetch ev)) (trace run) = true /\
  (forall config' : gmap string jsval,
     workGenerate config' hash threshold (Some generator) = run) /\
  (forall w : jsval,
     generator hash = inr w ->
     run = ([EvCustomWork hash; EvVerifyWork hash w threshold],
            if verifyWork hash w threshold then inr w
            else inl (Error "[error_nano_work_generation] Generated work is not valid"))).
Proof.
  intros run. unfold run. split; [|split].
  - rewrite workGenerate_custom_cases. now destruct (generator hash).
  - intros config'. now rewrite !workGenerate_custom_cases.
  - intros w Hw. now rewrite workGenerate_custom_cases, Hw.
Qed.

Lemma workGenerate_custom_generator_witness :
  let W := sample_world (FetchRejects AbortError) in
  sample_generator (JStr "00") = inr (JStr "baeb18003600c19c") /\
  @workGenerate W ∅ (JStr "00") "fffffff800000000" (Some sample_generator)
  = ([EvCustomWork (JStr "00");
      EvVerifyWork (JStr "00") (JStr "baeb18003600c19c") "fffffff800000000"],
     inr (JStr "baeb18003600c19c")).
Proof.
  intros W. split; [reflexivity|].
  exact (proj2 (proj2 (@workGenerate_custom_generator W ∅ (JStr "00") "fffffff800000000"
                         sample_generator)) _ eq_refl).
Defined.

(** X6. A custom generator that throws an [Error] ends [workGenerate]
    with a work-generation error whose text carries the generator's
    message as the cause, and [verifyWork] is not called.  One that
    throws [null] or [undefined] does not: reading the message of the
    caught value throws, and what comes out is a [TypeError]. *)
Theorem workGenerate_custom_generator_throws `{World} (config : gmap string jsval)
    (hash : jsval) (threshold : string) (generator : WorkGenerator) :
  (forall m : string,
     generator hash = inl (Error m) ->
     workGenerate config hash threshold (Some generator)
     = ([EvCustomWork hash],
        inl (Error ("[error_nano_work_generation] Error during custom work generation "
                    ++ LF ++ "Cause: " ++ m)))) /\
  (forall v : jsval,
     generator hash = inl (Thrown v) ->
     v = JNull \/ v = JUndefined ->
     exists m : string,
       workGenerate config hash threshold (Some generator)
       = ([EvCustomWork hash], inl (TypeError m))).
Proof.
  split.
  - intros m Hm. now rewrite workGenerate_custom_cases, Hm.
  - intros v Hv [-> | ->]; rewrite workGenerate_custom_cases, Hv; eexists; reflexivity.
Qed.

Lemma workGenerate_custom_generator_throws_witness :
  let W := sample_world (FetchRejects AbortError) in
  let failing : WorkGenerator := fun _ => inl (Error "GPU not found") in
  let careless : WorkGenerator := fun _ => inl (Thrown JNull) in
  outcome (@workGenerate W ∅ (JStr "00") "fffffff800000000" (Some failing))
  = inl (Error ("[error_nano_work_generation] Error during custom work generation "
                ++ LF ++ "Cause: GPU not found")) /\
  exists m : string,
    outcome (@workGenerate W ∅ (JStr "00") "fffffff800000000" (Some careless))
    = inl (TypeError m).
Proof.
  intros W failing careless.
  destruct (@workGenerate_custom_generator_throws W ∅ (JStr "00") "fffffff800000000" failing)
    as [Herr _].
  destruct (@workGenerate_custom_generator_throws W ∅ (JStr "00") "fffffff800000000" careless)
    as [_ Hnull].
  split.
  - now rewrite (Herr "GPU not found" eq_refl).
  - destruct (Hnull JNull eq_refl (or_introl eq_refl)) as [m Hm].
    exists m. now rewrite Hm.
Defined.


Lemma workGenerate_remote_thrown `{World} (config : gmap string jsval) (hash : jsval)
    (threshold : string) (e : thrown) :
  outcome (nanoRpcCall
             (nullish_coalesce (cfg_get config "NANO_WORK_GENERATION_URL")
                               (cfg_get config "NANO_RPC_URL"))
             "work_generate" [("hash", hash)] (5 * ONE_MINUTE)%N true) = inl e ->
  workGenerate config hash threshold None
  = ([work_generate_request config hash],
     inl (Error ("[error_nano_work_generation] Error during work generation "
                 ++ LF ++ "Cause: [error_nano_work_generation] Could not connect to Nano Work Generation URL"))).
Proof.
  intros Hcall. unfold workGenerate.
  pose proof (nanoRpcCall_thrown _ _ _ _ _ _ Hcall) as ->.
  rewrite (M_eta (nanoRpcCall _ _ _ _ _)), nanoRpcCall_trace, Hcall. reflexivity.
Qed.

Lemma workGenerate_remote_returned `{World} (config : gmap string jsval) (hash : jsval)
    (threshold : string) (response w : jsval) :
  outcome (nanoRpcCall
             (nullish_coalesce (cfg_get config "NANO_WORK_GENERATION_URL")
                               (cfg_get config "NANO_RPC_URL"))
             "work_generate" [("hash", hash)] (5 * ONE_MINUTE)%N true) = inr response ->
  get_prop response "work" = inr w ->
  workGenerate config hash threshold None
  = ([work_generate_request config hash; EvVerifyWork hash w threshold],
     if verifyWork hash w threshold then inr w
     else inl (Error "[error_nano_work_generation] Generated work is not valid")).
Proof.
  intros Hcall Hw. unfold workGenerate.
  rewrite (M_eta (nanoRpcCall _ _ _ _ _)), nanoRpcCall_trace, Hcall.
  unfold try_catch, bind, emit, lift. simpl. rewrite Hw. simpl.
  now destruct (verifyWork hash w threshold).
Qed.

(** X7. Without a custom generator, [workGenerate] posts one
    [work_generate] request for the hash, with a five-minute deadline, to
    the work-generation URL, or to the RPC URL when no work-generation
    URL is set.  When the request fails, the error is one fixed
    work-generation message and [verifyWork] is not called; when it
    returns, [verifyWork] is called once on the [work] property of the
    response, which is returned if accepted. *)
Theorem workGenerate_remote `{World} (config : gmap string jsval) (hash : jsval)
    (threshold : string) :
  let call :=
    nanoRpcCall (nullish_coalesce (cfg_get config "NANO_WORK_GENERATION_URL")
                                  (cfg_get config "NANO_RPC_URL"))
                "work_generate" [("hash", hash)] 300000%N true in
  let run := workGenerate config hash threshold None in
  (forall e : thrown,
     outcome call = inl e ->
     run = ([work_generate_request config hash],
            inl (Error ("[error_nano_work_generation] Error during work generation "
                        ++ LF ++ "Cause: [error_nano_work_generation] Could not connect to Nano Work Generation URL")))) /\
  (forall response : jsval,
     outcome call = inr response ->
     exists w : jsval,
       get_prop response "work" = inr w /\
       run = ([work_generate_request config hash; EvVerifyWork hash w threshold],
              if verifyWork hash w threshold then inr w
              else inl (Error "[error_nano_work_generation] Generated work is not valid"))).
Proof.
  intros call run. split.
  - intros e Hcall. exact (workGenerate_remote_thrown _ _ _ _ Hcall).
  - intros response Hcall.
    destruct (nanoRpcCall_returned_prop _ _ _ _ _ _ "work" Hcall) as [w Hw].
    exists w. split; [exact Hw|].
    exact (workGenerate_remote_returned _ _ _ _ _ Hcall Hw).
Qed.

Lemma workGenerate_remote_witness :
  let W := sample_world (FetchRejects (Error "socket hang up")) in
  @workGenerate W sample_config (JStr "00") "fffffff800000000" None
  = ([EvFetch (JStr SAMPLE_NANO_RPC_URL)
        [("action", JStr "work_generate"); ("hash", JStr "00")] 300000%N],
     inl (Error ("[error_nano_work_generation] Error during work generation "
                 ++ LF ++ "Cause: [error_nano_work_generation] Could not connect to Nano Work Generation URL"))).
Proof.
  intros W.
  exact (proj1 (@workGenerate_remote W sample_config (JStr "00") "fffffff800000000")
               (connection_error true) eq_refl).
Defined.

(** X8. [workGenerate] returns [w] exactly when the generator call gave
    [w] and [verifyWork] accepts it: the token is handed on unchanged,
    and nothing else is ever returned. *)
Theorem workGenerate_returns_iff `{World} (config : gmap string jsval) (hash : jsval)
    (threshold : string) (workGenerator : option WorkGenerator) (w : jsval) :
  outcome (workGenerate config hash threshold workGenerator) = inr w
  <-> generator_returns config hash workGenerator w /\ verifyWork hash w threshold = true.
Proof.
  destruct workGenerator as [generator|]; simpl generator_returns.
  - rewrite workGenerate_custom_cases.
    destruct (generator hash) as [error | w'] eqn:Hg; simpl.
    + split; [|now intros [[=] _]].
      destruct (message_of error); discriminate.
    + destruct (verifyWork hash w' threshold) eqn:Hv; simpl; split.
      * intros [= <-]. now split.
      * now intros [[= <-] _].
      * discriminate.
      * intros [[= <-] Hv']. congruence.
  - destruct (outcome (nanoRpcCall
                         (nullish_coalesce (cfg_get config "NANO_WORK_GENERATION_URL")
                                           (cfg_get config "NANO_RPC_URL"))
                         "work_generate" [("hash", hash)] (5 * ONE_MINUTE)%N true))
      as [e | response] eqn:Hcall.
    + rewrite (workGenerate_remote_thrown _ _ _ _ Hcall). simpl.
      split; [discriminate|]. intros [[response [Hr _]] _]. discriminate.
    + destruct (nanoRpcCall_returned_prop _ _ _ _ _ _ "work" Hcall) as [w' Hw].
      rewrite (workGenerate_remote_returned _ _ _ _ _ Hcall Hw). simpl.
      destruct (verifyWork hash w' threshold) eqn:Hv; simpl; split.
      * intros [= <-]. split; [now exists response | assumption].
      * intros [[response' [[= <-] Hw']] _]. congruence.
      * discriminate.
      * intros [[response' [[= <-] Hw']] Hv']. congruence.
Qed.

(** ** Block creation, continued *)

Lemma run_after_hooks_cons (index : nat) (hook : Hook) (rest : list Hook) (w : jsval)
    (context : WorkGenerationHookContext) :
  run_after_hooks index (hook :: rest) w context
  = match hook (with_work context w) with
    | inl e => ([EvAfterHook index (with_work context w)], inl e)
    | inr context' =>
        (EvAfterHook index (with_work context w)
           :: trace (run_after_hooks (S index) rest w context'),
         outcome (run_after_hooks (S index) rest w context'))
    end.
Proof.
  simpl. unfold bind, emit, lift.
  destruct (hook (with_work context w)) as [e | context']; [reflexivity|].
  now destruct (run_after_hooks (S index) rest w context').
Qed.

(** Each after-hook is handed the generated work, whatever an earlier
    hook wrote into the context. *)
Lemma run_after_hooks_calls (hooks : list Hook) (w : jsval) :
  forall (index : nat) (context : WorkGenerationHookContext),
    map after_hook_call (trace (run_after_hooks index hooks w context))
    = map (fun i => Some (i, w))
          (seq index (length (trace (run_after_hooks index hooks w context)))).
Proof.
  induction hooks as [|hook rest IH]; intros index context; [reflexivity|].
  rewrite run_after_hooks_cons.
  destruct (hook (with_work context w)) as [e | context']; [reflexivity|].
  simpl. f_equal. apply IH.
Qed.

Lemma run_after_hooks_length (hooks : list Hook) (w : jsval) :
  forall (index : nat) (context context' : WorkGenerationHookContext),
    outcome (run_after_hooks index hooks w context) = inr context' ->
    length (trace (run_after_hooks index hooks w context)) = length hooks.
Proof.
  induction hooks as [|hook rest IH]; intros index context context'; [reflexivity|].
  rewrite run_after_hooks_cons.
  destruct (hook (with_work context w)) as [e | context1]; [discriminate|].
  simpl. intros Hout. f_equal. exact (IH _ _ _ Hout).
Qed.

(** The build once the before-hooks have returned [context] and the
    work generator has returned [w]. *)
Lemma createBlock_after_work `{World} (config : gmap string jsval)
    (representative balance link previous : jsval)
    (before after : list Hook) (workGenerator : option WorkGenerator)
    (context : WorkGenerationHookContext) (w : jsval) :
  outcome (run_before_hooks 0 before
             {| ctx_representative := representative; ctx_balance := balance;
                ctx_link := link; ctx_previous := previous; ctx_work := JUndefined |})
  = inr context ->
  outcome (workGenerate config previous SEND_BLOCK_WORK_THRESHOLD workGenerator) = inr w ->
  let fields :=
    {| bf_representative := representative; bf_balance := balance;
       bf_work := w; bf_link := link; bf_previous := previous |} in
  let privateKey := cfg_get config NANO_ACCOUNT_PRIVATE_KEY_PROPERTY in
  createBlock config representative balance link previous before after workGenerator
  = ((trace (run_before_hooks 0 before
               {| ctx_representative := representative; ctx_balance := balance;
                  ctx_link := link; ctx_previous := previous; ctx_work := JUndefined |})
      ++ trace (workGenerate config previous SEND_BLOCK_WORK_THRESHOLD workGenerator)
      ++ trace (run_after_hooks 0 after w context)
      ++ match outcome (run_after_hooks 0 after w context) with
         | inl _ => []
         | inr _ => if truthy w then [EvSign privateKey fields] else []
         end)%list,
     match outcome (run_after_hooks 0 after w context) with
     | inl e => inl e
     | inr _ =>
         if truthy w then
           match N_createBlock privateKey fields with
           | inl e => inl e
           | inr block => inr (with_account block (normalize_account (account block)))
           end
         else inl (Error "[error_nano_work_generation] No work generated during creation of Nano send block")
     end).
Proof.
  intros Hbefore Hwork fields privateKey.
  rewrite createBlock_unfold.
  rewrite (M_eta (run_before_hooks 0 before _)), Hbefore.
  unfold bind at 1.
  rewrite (M_eta (workGenerate _ _ _ _)), Hwork.
  unfold bind at 1.
  rewrite (M_eta (run_after_hooks 0 after w context)).
  destruct (outcome (run_after_hooks 0 after w context)) as [e | context'].
  - simpl. now rewrite !app_nil_r.
  - unfold bind at 1. destruct (truthy w).
    + cbv zeta. fold privateKey. fold fields. unfold bind, emit, lift, ret.
      destruct (N_createBlock privateKey fields); simpl; reflexivity.
    + simpl. now rewrite !app_nil_r.
Qed.

(** X9. In [createBlock] the after-hooks run after work generation, in
    registration order, each one handed the generated work whatever an
    earlier hook wrote into the context.  When one of them throws, its
    own error is the outcome and the signing routine is never called. *)
Theorem createBlock_after_hooks `{World} (config : gmap string jsval)
    (representative balance link previous : jsval)
    (before after : list Hook) (workGenerator : option WorkGenerator)
    (context : WorkGenerationHookContext) (w : jsval) :
  let context0 :=
    {| ctx_representative := representative; ctx_balance := balance;
       ctx_link := link; ctx_previous := previous; ctx_work := JUndefined |} in
  let build :=
    createBlock config representative balance link previous before after workGenerator in
  let after_run := run_after_hooks 0 after w context in
  outcome (run_before_hooks 0 before context0) = inr context ->
  outcome (workGenerate config previous SEND_BLOCK_WORK_THRESHOLD workGenerator) = inr w ->
  (exists rest : list event,
     trace build
     = (trace (run_before_hooks 0 before context0)
        ++ trace (workGenerate config previous SEND_BLOCK_WORK_THRESHOLD workGenerator)
        ++ trace after_run ++ rest)%list /\
     forallb (fun ev => negb (is_after_hook ev)) rest = true) /\
  map after_hook_call (trace after_run)
  = map (fun i => Some (i, w)) (seq 0 (length (trace after_run))) /\
  (forall context' : WorkGenerationHookContext,
     outcome after_run = inr context' -> length (trace after_run) = length after) /\
  (forall e : thrown,
     outcome after_run = inl e ->
     outcome build = inl e /\
     forallb (fun ev => negb (is_sign ev)) (trace build) = true).
Proof.
  intros context0 build after_run Hbefore Hwork.
  pose proof (createBlock_after_work config representative balance link previous
                before after workGenerator context w Hbefore Hwork) as Hbuild.
  cbv zeta in Hbuild. fold context0 in Hbuild. fold after_run in Hbuild. fold build in Hbuild.
  split; [|split; [|split]].
  - eexists. rewrite Hbuild. split; [reflexivity|].
    destruct (outcome after_run); [reflexivity|]. now destruct (truthy w).
  - apply run_after_hooks_calls.
  - intros context'. apply run_after_hooks_length.
  - intros e He. rewrite Hbuild, He. split; [reflexivity|].
    simpl. rewrite app_nil_r, !forallb_app.
    apply andb_true_intro. split; [|apply andb_true_intro; split].
    + apply (forallb_weaken is_before_hook); [now intros [] | apply run_before_hooks_only_hooks].
    + apply (forallb_weaken is_work_event); [now intros [] | apply workGenerate_trace].
    + eapply forallb_weaken; [|apply run_after_hooks_trace].
      intros ev Hev. now apply andb_prop in Hev as [_ ->].
Qed.

Lemma createBlock_after_hooks_witness :
  let W := sample_world (FetchRejects AbortError) in
  let build :=
    @createBlock W sample_config (JStr "nano_1rep") (JStr "20") (JStr "nano_1dest")
      (JStr "00") [] [sample_hook_mutates; sample_hook_throws] (Some sample_generator) in
  outcome build = inl (Error "audit log unavailable") /\
  forallb (fun ev => negb (is_sign ev)) (trace build) = true /\
  map after_hook_call
    (trace (run_after_hooks 0 [sample_hook_mutates; sample_hook_throws]
              (JStr "baeb18003600c19c") sample_context))
  = [Some (0, JStr "baeb18003600c19c"); Some (1, JStr "baeb18003600c19c")].
Proof.
  intros W build.
  destruct (@createBlock_after_hooks W sample_config (JStr "nano_1rep") (JStr "20")
              (JStr "nano_1dest") (JStr "00") [] [sample_hook_mutates; sample_hook_throws]
              (Some sample_generator) sample_context (JStr "baeb18003600c19c")
              eq_refl eq_refl) as [_ [Hcalls [_ Habort]]].
  destruct (Habort (Error "audit log unavailable") eq_refl) as [Hout Hsign].
  split; [exact Hout|]. split; [exact Hsign | exact Hcalls].
Defined.



(** ** The legacy address prefix *)

Lemma substring_all (s : string) : String.substring 0 (String.length s) s = s.
Proof. induction s as [|c s IH]; simpl; [reflexivity | now rewrite IH]. Qed.

Lemma prefix_xrb_inv (a : string) :
  String.prefix XRB_PREFIX a = true -> exists rest : string, a = "xrb_" ++ rest.
Proof.
  unfold XRB_PREFIX.
  intros Hp. apply String.prefix_correct in Hp.
  destruct a as [|c1 [|c2 [|c3 [|c4 rest]]]]; simpl in Hp; try discriminate Hp.
  injection Hp as -> -> -> -> _. now exists rest.
Qed.

Lemma normalize_account_legacy (rest : string) :
  normalize_account ("xrb_" ++ rest) = "nano_" ++ rest.
Proof.
  unfold normalize_account, XRB_PREFIX, NANO_PREFIX. simpl.
  change (EmptyString ++ rest) with rest.
  rewrite Nat.sub_0_r, substring_all. now destruct rest.
Qed.

Lemma normalize_account_no_legacy (a : string) :
  String.prefix XRB_PREFIX (normalize_account a) = false.
Proof.
  destruct (String.prefix XRB_PREFIX a) eqn:Hp.
  - destruct (prefix_xrb_inv _ Hp) as [rest ->].
    now rewrite normalize_account_legacy.
  - unfold normalize_account. now rewrite Hp.
Qed.

Lemma createBlock_returned `{World} (config : gmap string jsval)
    (representative balance link previous : jsval)
    (before after : list Hook) (workGenerator : option WorkGenerator)
    (block : NanoSendBlock) :
  outcome (createBlock config representative balance link previous before after
             workGenerator) = inr block ->
  exists (signed : NanoSendBlock) (w : jsval),
    N_createBlock (cfg_get config NANO_ACCOUNT_PRIVATE_KEY_PROPERTY)
      {| bf_representative := representative; bf_balance := balance;
         bf_work := w; bf_link := link; bf_previous := previous |} = inr signed /\
    verifyWork previous w SEND_BLOCK_WORK_THRESHOLD = true /\
    block = with_account signed (normalize_account (account signed)).
Proof.
  rewrite createBlock_unfold, bind_outcome.
  destruct (outcome (run_before_hooks _ _ _)) as [e | context]; [discriminate|].
  cbv beta. rewrite bind_outcome.
  destruct (outcome (workGenerate _ _ _ _)) as [e | w] eqn:Hwork; [discriminate|].
  cbv beta. rewrite bind_outcome.
  destruct (outcome (run_after_hooks _ _ _ _)) as [e | context']; [discriminate|].
  cbv beta. destruct (truthy w); [|discriminate].
  cbv zeta. unfold bind, emit, lift, ret.
  destruct (N_createBlock _ _) as [e | signed] eqn:Hsign; simpl; [discriminate|].
  intros [= <-]. exists signed, w.
  split; [exact Hsign|]. split; [|reflexivity].
  exact (workGenerate_returns_valid _ _ _ _ _ Hwork).
Qed.

(** X11. The legacy prefix never leaves the builder.  [xrb_] at the
    start of an account is replaced by [nano_] and the rest is kept, any
    other account is left alone, doing it twice changes nothing more -
    and so the account of every block that [createBlock] returns does
    not start with [xrb_]; the block is otherwise the one the signing
    routine made from the builder's arguments and a work token that
    passed [verifyWork]. *)
Theorem createBlock_normalises_account `{World} (config : gmap string jsval)
    (representative balance link previous : jsval)
    (before after : list Hook) (workGenerator : option WorkGenerator) :
  (forall rest : string, normalize_account ("xrb_" ++ rest) = "nano_" ++ rest) /\
  (forall a : string, String.prefix "xrb_" a = false -> normalize_account a = a) /\
  (forall a : string, normalize_account (normalize_account a) = normalize_account a) /\
  (forall block : NanoSendBlock,
     outcome (createBlock config representative balance link previous before after
                workGenerator) = inr block ->
     String.prefix "xrb_" (account block) = false /\
     exists (signed : NanoSendBlock) (w : jsval),
       N_createBlock (cfg_get config NANO_ACCOUNT_PRIVATE_KEY_PROPERTY)
         {| bf_representative := representative; bf_balance := balance;
            bf_work := w; bf_link := link; bf_previous := previous |} = inr signed /\
       verifyWork previous w SEND_BLOCK_WORK_THRESHOLD = true /\
       block = with_account signed (normalize_account (account signed))).
Proof.
  split; [exact normalize_account_legacy|]. split; [|split].
  - intros a Ha. unfold normalize_account. fold XRB_PREFIX in Ha. now rewrite Ha.
  - intros a. unfold normalize_account at 1.
    now rewrite normalize_account_no_legacy.
  - intros block Hblock.
    destruct (createBlock_returned _ _ _ _ _ _ _ _ _ Hblock) as [signed [w [Hs [Hv ->]]]].
    split; [apply normalize_account_no_legacy|].
    now exists signed, w.
Qed.

Lemma createBlock_normalises_account_witness :
  let W := sample_world (FetchRejects AbortError) in
  String.prefix "xrb_" "nano_1abc" = false /\
  normalize_account "nano_1abc" = "nano_1abc" /\
  match outcome (@createBlock W sample_config (JStr "nano_1rep") (JStr "20")
                   (JStr "nano_1dest") (JStr "00") [] [] (Some sample_generator)) with
  | inr block => account block = "nano_1sample"
  | inl _ => False
  end.
Proof.
  intros W.
  destruct (@createBlock_normalises_account W sample_config (JStr "nano_1rep") (JStr "20")
              (JStr "nano_1dest") (JStr "00") [] [] (Some sample_generator))
    as [_ [Hkeep [_ Hblock]]].
  split; [reflexivity|]. split; [exact (Hkeep "nano_1abc" eq_refl)|].
  destruct (Hblock _ eq_refl) as [_ [signed [w [Hs [_ Hb]]]]].
  vm_compute. reflexivity.
Defined.

(** ** The URL setters *)

Lemma validateNanoRpcUrl_bypass `{World} (url : jsval) :
  validateNanoRpcUrl url true
  = if safeParse URL_schema url then inr tt
    else inl (Error "[error_config] NANO_RPC_URL is not a valid URL").
Proof. unfold validateNanoRpcUrl. simpl. now destruct (safeParse URL_schema url). Qed.

Lemma validateNanoWorkGenerationUrl_bypass `{World} (url : jsval) :
  validateNanoWorkGenerationUrl url true
  = if safeParse URL_schema url then inr tt
    else inl (Error "[error_config] NANO_WORK_GENERATION_URL is not a valid URL").
Proof.
  unfold validateNanoWorkGenerationUrl. simpl. now destruct (safeParse URL_schema url).
Qed.

Lemma safeParse_string (schema : string -> bool) (v : jsval) :
  safeParse schema v = true -> exists s : string, v = JStr s /\ schema s = true.
Proof. destruct v; try discriminate. intros Hs. now exists s. Qed.

Lemma setNanoRpcUrl_cases `{World} (url : jsval) (this : Helper) :
  setNanoRpcUrl url this
  = if safeParse URL_schema url then
      (inr tt,
       set_config this
         (<["NANO_WORK_GENERATION_URL" :=
              nullish_coalesce (cfg_get (config this) "NANO_WORK_GENERATION_URL") url]>
            (<["NANO_RPC_URL" := url]> (config this))))
    else (inl (Error "[error_config] NANO_RPC_URL is not a valid URL"), this).
Proof.
  unfold setNanoRpcUrl. rewrite validateNanoRpcUrl_bypass.
  destruct (safeParse URL_schema url); [|reflexivity].
  rewrite cfg_get_insert_eq, cfg_get_insert_ne by discriminate. reflexivity.
Qed.

Lemma setNanoWorkGenerationUrl_cases `{World} (url : jsval) (this : Helper) :
  setNanoWorkGenerationUrl url this
  = if safeParse URL_schema url then
      (inr tt, set_config this (<["NANO_WORK_GENERATION_URL" := url]> (config this)))
    else (inl (Error "[error_config] NANO_WORK_GENERATION_URL is not a valid URL"), this).
Proof.
  unfold setNanoWorkGenerationUrl. rewrite validateNanoWorkGenerationUrl_bypass.
  now destruct (safeParse URL_schema url).
Qed.

(** X12. [setNanoRpcUrl] fills in the work-generation URL only while
    there is none.  After a first accepted URL on an instance without a
    work-generation URL both URLs are that one; a second accepted URL
    replaces the RPC URL and leaves the work-generation URL at the first:
    work requests keep going to the old endpoint. *)
Theorem setNanoRpcUrl_work_url_sticks `{World} (this : Helper) (u1 u2 : string) :
  URL_schema u1 = true ->
  URL_schema u2 = true ->
  let first := setNanoRpcUrl (JStr u1) this in
  let second := setNanoRpcUrl (JStr u2) (snd first) in
  fst first = inr tt /\ fst second = inr tt /\
  cfg_get (config (snd first)) "NANO_RPC_URL" = JStr u1 /\
  cfg_get (config (snd first)) "NANO_WORK_GENERATION_URL"
  = nullish_coalesce (cfg_get (config this) "NANO_WORK_GENERATION_URL") (JStr u1) /\
  cfg_get (config (snd second)) "NANO_RPC_URL" = JStr u2 /\
  cfg_get (config (snd second)) "NANO_WORK_GENERATION_URL"
  = cfg_get (config (snd first)) "NANO_WORK_GENERATION_URL" /\
  (cfg_get (config this) "NANO_WORK_GENERATION_URL" = JUndefined ->
   cfg_get (config (snd second)) "NANO_WORK_GENERATION_URL" = JStr u1).
Proof.
  intros H1 H2 first second.
  unfold second, first. rewrite !setNanoRpcUrl_cases. simpl safeParse. rewrite H1, H2.
  simpl. rewrite !cfg_get_insert_eq.
  rewrite !(cfg_get_insert_ne _ "NANO_WORK_GENERATION_URL" "NANO_RPC_URL") by discriminate.
  rewrite !cfg_get_insert_eq.
  repeat split.
  - now destruct (cfg_get (config this) "NANO_WORK_GENERATION_URL").
  - intros ->. reflexivity.
Qed.

Lemma setNanoRpcUrl_work_url_sticks_witness :
  let W := sample_world (FetchRejects AbortError) in
  let first := @setNanoRpcUrl W (JStr "https://sample-nano-rpc-url") (constructor None) in
  let second := @setNanoRpcUrl W (JStr "https://sample-nano-rpc-url-two") (snd first) in
  cfg_get (config (snd second)) "NANO_RPC_URL" = JStr "https://sample-nano-rpc-url-two" /\
  cfg_get (config (snd second)) "NANO_WORK_GENERATION_URL"
  = JStr "https://sample-nano-rpc-url".
Proof.
  intros W first second.
  destruct (@setNanoRpcUrl_work_url_sticks W (constructor None)
              "https://sample-nano-rpc-url" "https://sample-nano-rpc-url-two"
              eq_refl eq_refl) as [_ [_ [_ [_ [Hrpc [_ Hwork]]]]]].
  split; [exact Hrpc | exact (Hwork eq_refl)].
Defined.

(** X13. The URL setters are all-or-nothing and keep to their own keys.
    A value that is no valid URL makes the setter throw the not-valid
    configuration error and leaves the instance as it was; an accepted
    one is what [getConfig] then shows under the setter's key.  Neither
    setter touches any other property - the private key least of all -
    nor the hooks or the generator, except that [setNanoRpcUrl] may fill
    in the work-generation URL. *)
Theorem url_setters_frame `{World} (url : jsval) (this : Helper) :
  let rpc := setNanoRpcUrl url this in
  let wg := setNanoWorkGenerationUrl url this in
  (safeParse URL_schema url = false ->
     rpc = (inl (Error "[error_config] NANO_RPC_URL is not a valid URL"), this) /\
     wg = (inl (Error "[error_config] NANO_WORK_GENERATION_URL is not a valid URL"), this)) /\
  (safeParse URL_schema url = true ->
     fst rpc = inr tt /\ fst wg = inr tt /\
     getConfig (snd rpc) !! "NANO_RPC_URL" = Some url /\
     getConfig (snd wg) !! "NANO_WORK_GENERATION_URL" = Some url) /\
  (forall k : string,
     k <> "NANO_RPC_URL" -> k <> "NANO_WORK_GENERATION_URL" ->
     config (snd rpc) !! k = config this !! k) /\
  (forall k : string,
     k <> "NANO_WORK_GENERATION_URL" -> config (snd wg) !! k = config this !! k) /\
  credential_state (snd rpc) = credential_state this /\
  credential_state (snd wg) = credential_state this /\
  beforeWorkGenerationHooks (snd rpc) = beforeWorkGenerationHooks this /\
  afterWorkGenerationHooks (snd rpc) = afterWorkGenerationHooks this /\
  workGenerator (snd rpc) = workGenerator this /\
  beforeWorkGenerationHooks (snd wg) = beforeWorkGenerationHooks this /\
  afterWorkGenerationHooks (snd wg) = afterWorkGenerationHooks this /\
  workGenerator (snd wg) = workGenerator this.
Proof.
  intros rpc wg. unfold rpc, wg.
  rewrite setNanoRpcUrl_cases, setNanoWorkGenerationUrl_cases.
  unfold credential_state, getConfig.
  destruct (safeParse URL_schema url); simpl.
  - split; [discriminate|]. split.
    + intros _. split; [reflexivity|]. split; [reflexivity|].
      rewrite !lookup_delete_ne by discriminate.
      rewrite lookup_insert_ne by discriminate.
      rewrite !lookup_insert_eq. now split.
    + split; [|split].
      * intros k Hrpc Hwg. rewrite !lookup_insert_ne by congruence. reflexivity.
      * intros k Hwg. rewrite lookup_insert_ne by congruence. reflexivity.
      * rewrite !cfg_get_insert_ne by discriminate. repeat split.
  - split; [now intros _|]. split; [discriminate|]. repeat split.
Qed.

Lemma url_setters_frame_witness :
  let W := sample_world (FetchRejects AbortError) in
  let this := constructor (Some sample_config) in
  safeParse (@URL_schema W) (JStr "an_invalid_url") = false /\
  @setNanoRpcUrl W (JStr "an_invalid_url") this
  = (inl (Error "[error_config] NANO_RPC_URL is not a valid URL"), this).
Proof.
  intros W this.
  assert (Hbad : safeParse (@URL_schema W) (JStr "an_invalid_url") = false) by reflexivity.
  split; [exact Hbad|].
  exact (proj1 (proj1 (@url_setters_frame W (JStr "an_invalid_url") this) Hbad)).
Defined.

(** ** Send-block generation, continued *)

(** X14. Configuration comes first in [generateSendBlock]: when the RPC
    URL, then the private key, then the work-generation URL fails its
    check, or the address cannot be derived from the key, the error of
    the first failing step is thrown and nothing has been logged - no
    request was sent, no hook was called. *)
Theorem generateSendBlock_fails_fast `{World} (this : Helper)
    (params : GenerateSendBlockParams) (e : thrown) :
  let rpc := validateNanoRpcUrl (cfg_get (config this) "NANO_RPC_URL") false in
  let key := validateNanoAccountPrivateKey
               (cfg_get (config this) NANO_ACCOUNT_PRIVATE_KEY_PROPERTY) false in
  let wg := validateNanoWorkGenerationUrl
              (cfg_get (config this) "NANO_WORK_GENERATION_URL") false in
  (rpc = inl e -> generateSendBlock this params = ([], inl e)) /\
  (rpc = inr tt -> key = inl e -> generateSendBlock this params = ([], inl e)) /\
  (rpc = inr tt -> key = inr tt -> wg = inl e ->
   generateSendBlock this params = ([], inl e)) /\
  (rpc = inr tt -> key = inr tt -> wg = inr tt -> getAccount (config this) = inl e ->
   generateSendBlock this params = ([], inl e)).
Proof.
  intros rpc key wg. unfold rpc, key, wg, generateSendBlock.
  repeat split.
  - intros ->. reflexivity.
  - intros -> ->. reflexivity.
  - intros -> -> ->. reflexivity.
  - intros -> -> -> ->. reflexivity.
Qed.

Lemma generateSendBlock_fails_fast_witness :
  let W := sample_world (FetchResolves 10 (json_response sample_account_info)) in
  let this := constructor None in
  @validateNanoRpcUrl W (cfg_get (config this) "NANO_RPC_URL") false
  = inl (Error "[error_config] NANO_RPC_URL is not set") /\
  @generateSendBlock W this {| payTo := JStr "nano_1dest"; amount := JStr "30" |}
  = ([], inl (Error "[error_config] NANO_RPC_URL is not set")).
Proof.
  intros W this. split; [reflexivity|].
  exact (proj1 (@generateSendBlock_fails_fast W this
                  {| payTo := JStr "nano_1dest"; amount := JStr "30" |}
                  (Error "[error_config] NANO_RPC_URL is not set")) eq_refl).
Defined.

(** X15. After [clearNanoAccountPrivateKey] nothing can be sent: on the
    cleared instance [generateSendBlock] logs nothing and throws a
    configuration error - the key-not-set error as soon as the RPC URL is
    in order. *)
Theorem generateSendBlock_after_clear `{World} (this : Helper)
    (params : GenerateSendBlockParams) :
  let cleared := snd (clearNanoAccountPrivateKey this) in
  let run := generateSendBlock cleared params in
  trace run = [] /\
  (exists m : string, outcome run = inl (Error m) /\ has_code ERROR_CONFIG m = true) /\
  (validateNanoRpcUrl (cfg_get (config this) "NANO_RPC_URL") false = inr tt ->
   outcome run = inl (Error "[error_config] NANO_ACCOUNT_PRIVATE_KEY is not set")).
Proof.
  intros cleared run.
  assert (Hkey : cfg_get (config cleared) NANO_ACCOUNT_PRIVATE_KEY_PROPERTY = JUndefined).
  { unfold cleared, clearNanoAccountPrivateKey. simpl. apply cfg_get_insert_eq. }
  assert (Hrpc : cfg_get (config cleared) "NANO_RPC_URL" = cfg_get (config this) "NANO_RPC_URL").
  { unfold cleared, clearNanoAccountPrivateKey. simpl.
    apply cfg_get_insert_ne. discriminate. }
  unfold run, generateSendBlock. rewrite Hkey, Hrpc.
  unfold validateNanoRpcUrl.
  destruct (negb false && negb (truthy (cfg_get (config this) "NANO_RPC_URL"))).
  - repeat split; [eexists; split; reflexivity | discriminate].
  - destruct (negb (safeParse URL_schema (cfg_get (config this) "NANO_RPC_URL"))).
    + repeat split; [eexists; split; reflexivity | discriminate].
    + repeat split. eexists; split; reflexivity.
Qed.

Lemma generateSendBlock_after_clear_witness :
  let W := sample_world (FetchResolves 10 (json_response sample_account_info)) in
  let this := constructor (Some sample_config) in
  @validateNanoRpcUrl W (cfg_get (config this) "NANO_RPC_URL") false = inr tt /\
  outcome (@generateSendBlock W (snd (clearNanoAccountPrivateKey this))
             {| payTo := JStr "nano_1dest"; amount := JStr "30" |})
  = inl (Error "[error_config] NANO_ACCOUNT_PRIVATE_KEY is not set").
Proof.
  intros W this.
  assert (Hrpc : @validateNanoRpcUrl W (cfg_get (config this) "NANO_RPC_URL") false = inr tt)
    by (vm_compute; reflexivity).
  split; [exact Hrpc|].
  exact (proj2 (proj2 (@generateSendBlock_after_clear W this
                         {| payTo := JStr "nano_1dest"; amount := JStr "30" |})) Hrpc).
Defined.

(** The run up to the frontier check, for a valid configuration. *)
Lemma generateSendBlock_with_frontier `{World} (this : Helper)
    (params : GenerateSendBlockParams) (sourceAccount : string)
    (info currentBalance frontier : jsval) :
  validateNanoRpcUrl (cfg_get (config this) "NANO_RPC_URL") false = inr tt ->
  validateNanoAccountPrivateKey
    (cfg_get (config this) NANO_ACCOUNT_PRIVATE_KEY_PROPERTY) false = inr tt ->
  validateNanoWorkGenerationUrl
    (cfg_get (config this) "NANO_WORK_GENERATION_URL") false = inr tt ->
  getAccount (config this) = inr sourceAccount ->
  outcome (getAccountInfo this (JStr sourceAccount)) = inr info ->
  get_prop info "balance" = inr currentBalance ->
  get_prop info "frontier" = inr frontier ->
  truthy frontier = true ->
  generateSendBlock this params
  = match calculateBalanceAfterSend currentBalance (amount params) with
    | inl e =>
        ([account_info_request this (JStr sourceAccount);
          EvBalance currentBalance (amount params)], inl e)
    | inr balanceAfterSend =>
        let build :=
          createBlock (config this)
            (match get_prop info "representative" with inr r => r | inl _ => JUndefined end)
            (JStr balanceAfterSend) (payTo params) frontier
            (beforeWorkGenerationHooks this) (afterWorkGenerationHooks this)
            (workGenerator this) in
        (account_info_request this (JStr sourceAccount)
           :: EvBalance currentBalance (amount params) :: trace build,
         outcome build)
    end.
Proof.
  intros Hrpc Hkey Hwork Haccount Hinfo Hbalance Hfrontier Htruthy.
  destruct (get_prop_defined info "frontier" "representative" _ Hfrontier) as [r Hr].
  unfold generateSendBlock.
  rewrite Hrpc, Hkey, Hwork, Haccount, !bind_lift_inr.
  rewrite (M_eta (getAccountInfo this (JStr sourceAccount))), Hinfo,
    (getAccountInfo_trace _ _ _ Hinfo).
  unfold bind at 1. rewrite Hbalance, bind_lift_inr, Hfrontier, bind_lift_inr, Htruthy.
  simpl negb. cbv iota.
  unfold bind at 1. unfold emit.
  destruct (calculateBalanceAfterSend currentBalance (amount params)) as [e | b].
  - reflexivity.
  - rewrite bind_lift_inr, Hr, bind_lift_inr. cbv zeta.
    now destruct (createBlock _ _ _ _ _ _ _ _).
Qed.

(** X16. A send that the balance does not cover stops at the balance
    computation: with a valid configuration and an account that has a
    frontier and a digit-string balance smaller than the amount,
    [generateSendBlock] throws the insufficient-balance error after the
    [account_info] request and the balance computation, before any hook,
    any request for work and any signature. *)
Theorem generateSendBlock_insufficient_balance `{World} (this : Helper)
    (params : GenerateSendBlockParams) (sourceAccount : string)
    (info frontier : jsval) (currentBalance amountToSend : string) (x y : N) :
  validateNanoRpcUrl (cfg_get (config this) "NANO_RPC_URL") false = inr tt ->
  validateNanoAccountPrivateKey
    (cfg_get (config this) NANO_ACCOUNT_PRIVATE_KEY_PROPERTY) false = inr tt ->
  validateNanoWorkGenerationUrl
    (cfg_get (config this) "NANO_WORK_GENERATION_URL") false = inr tt ->
  getAccount (config this) = inr sourceAccount ->
  outcome (getAccountInfo this (JStr sourceAccount)) = inr info ->
  get_prop info "balance" = inr (JStr currentBalance) ->
  get_prop info "frontier" = inr frontier ->
  truthy frontier = true ->
  amount params = JStr amountToSend ->
  decimal_value currentBalance = Some x ->
  decimal_value amountToSend = Some y ->
  (x < y)%N ->
  generateSendBlock this params
  = ([account_info_request this (JStr sourceAccount);
      EvBalance (JStr currentBalance) (JStr amountToSend)],
     inl (Error "[error_insufficient_nano_balance] Insufficient balance to perform Nano send transaction")).
Proof.
  intros Hrpc Hkey Hwork Haccount Hinfo Hbalance Hfrontier Htruthy Hamount Hx Hy Hlt.
  rewrite (generateSendBlock_with_frontier this params sourceAccount info _ frontier
             Hrpc Hkey Hwork Haccount Hinfo Hbalance Hfrontier Htruthy).
  rewrite Hamount, (calculateBalanceAfterSend_value _ _ _ _ Hx Hy).
  destruct (N.leb_spec y x); [lia | reflexivity].
Qed.

Lemma generateSendBlock_insufficient_balance_witness :
  let W := sample_world (FetchResolves 10 (json_response sample_account_info)) in
  let this := constructor (Some sample_config) in
  outcome (@generateSendBlock W this {| payTo := JStr "nano_1dest"; amount := JStr "51" |})
  = inl (Error "[error_insufficient_nano_balance] Insufficient balance to perform Nano send transaction").
Proof.
  intros W this.
  rewrite (@generateSendBlock_insufficient_balance W this
             {| payTo := JStr "nano_1dest"; amount := JStr "51" |}
             "nano_1sample" sample_account_info
             (JStr "D1C14068F8AD4F6D2EB48CC4232AFD76E2AC13CEB7F021AD0FCA2339394CE5A7")
             "50" "51" 50 51);
    try reflexivity; vm_compute; reflexivity.
Defined.

(** X17. What [generateSendBlock] builds.  With a valid configuration, an
    account with a frontier and a digit-string balance that covers the
    amount, the run is the [account_info] request, the balance
    computation, and then exactly the [createBlock] run on the fetched
    representative, the balance minus the amount in canonical decimal,
    the destination as link, the frontier as previous, and the hooks and
    generator of the instance. *)
Theorem generateSendBlock_builds_on_frontier `{World} (this : Helper)
    (params : GenerateSendBlockParams) (sourceAccount : string)
    (info frontier rep : jsval) (currentBalance amountToSend : string) (x y : N) :
  validateNanoRpcUrl (cfg_get (config this) "NANO_RPC_URL") false = inr tt ->
  validateNanoAccountPrivateKey
    (cfg_get (config this) NANO_ACCOUNT_PRIVATE_KEY_PROPERTY) false = inr tt ->
  validateNanoWorkGenerationUrl
    (cfg_get (config this) "NANO_WORK_GENERATION_URL") false = inr tt ->
  getAccount (config this) = inr sourceAccount ->
  outcome (getAccountInfo this (JStr sourceAccount)) = inr info ->
  get_prop info "balance" = inr (JStr currentBalance) ->
  get_prop info "frontier" = inr frontier ->
  get_prop info "representative" = inr rep ->
  truthy frontier = true ->
  amount params = JStr amountToSend ->
  decimal_value currentBalance = Some x ->
  decimal_value amountToSend = Some y ->
  (y <= x)%N ->
  let build :=
    createBlock (config this) rep (JStr (decimal_of_N (x - y))) (payTo params) frontier
      (beforeWorkGenerationHooks this) (afterWorkGenerationHooks this)
      (workGenerator this) in
  generateSendBlock this params
  = (account_info_request this (JStr sourceAccount)
       :: EvBalance (JStr currentBalance) (JStr amountToSend) :: trace build,
     outcome build).
Proof.
  intros Hrpc Hkey Hwork Haccount Hinfo Hbalance Hfrontier Hrep Htruthy Hamount Hx Hy Hle
         build.
  rewrite (generateSendBlock_with_frontier this params sourceAccount info _ frontier
             Hrpc Hkey Hwork Haccount Hinfo Hbalance Hfrontier Htruthy).
  rewrite Hamount, (calculateBalanceAfterSend_value _ _ _ _ Hx Hy), Hrep.
  destruct (N.leb_spec y x); [reflexivity | lia].
Qed.

Lemma generateSendBlock_builds_on_frontier_witness :
  let W := sample_world (FetchResolves 10 (json_response sample_account_info)) in
  let this := snd (setCustomWorkGenerator sample_generator (constructor (Some sample_config))) in
  match outcome (@generateSendBlock W this
                   {| payTo := JStr "nano_1dest"; amount := JStr "30" |}) with
  | inr block => balance block = JStr "20" /\ link block = JStr "nano_1dest"
  | inl _ => False
  end.
Proof.
  intros W this.
  rewrite (@generateSendBlock_builds_on_frontier W this
             {| payTo := JStr "nano_1dest"; amount := JStr "30" |}
             "nano_1sample" sample_account_info
             (JStr "D1C14068F8AD4F6D2EB48CC4232AFD76E2AC13CEB7F021AD0FCA2339394CE5A7")
             (JStr "nano_1rep") "50" "30" 50 30);
    try reflexivity; try (vm_compute; reflexivity); try lia.
  vm_compute. split; reflexivity.
Defined.

(** ** Account lookup and block submission *)

(** X18. [getAccountInfo] and [processBlock] check the RPC URL before
    anything else: when the check fails they throw its configuration
    error without sending a request.  Otherwise each sends one request to
    the RPC URL with a one-minute deadline - [account_info] with the
    account and [representative: "true"], respectively [process] with
    [json_block: "true"], [subtype: "send"] and the block - and a failure
    of that request is the RPC-connection error, never the
    work-generation one. *)
Theorem rpc_methods_check_then_call `{World} (this : Helper) (account block : jsval) :
  let check := validateNanoRpcUrl (cfg_get (config this) "NANO_RPC_URL") false in
  (forall e : thrown,
     check = inl e ->
     getAccountInfo this account = ([], inl e) /\
     processBlock this block = ([], inl e)) /\
  (check = inr tt ->
     trace (getAccountInfo this account) = [account_info_request this account] /\
     trace (processBlock this block) = [process_request this block] /\
     (forall e : thrown,
        outcome (getAccountInfo this account) = inl e \/
        outcome (processBlock this block) = inl e ->
        e = Error "[error_nano_rpc_connection] Could not connect to Nano RPC URL")).
Proof.
  intros check. unfold check, getAccountInfo, processBlock. split.
  - intros e ->. split; reflexivity.
  - intros ->. rewrite !bind_lift_inr, !nanoRpcCall_trace.
    split; [reflexivity|]. split; [reflexivity|].
    intros e [He | He]; exact (nanoRpcCall_thrown _ _ _ _ _ _ He).
Qed.

Lemma rpc_methods_check_then_call_witness :
  let W := sample_world (FetchRejects (Error "socket hang up")) in
  let this := constructor (Some sample_config) in
  @validateNanoRpcUrl W (cfg_get (config this) "NANO_RPC_URL") false = inr tt /\
  trace (@processBlock W this (JObj [("type", JStr "state")]))
  = [process_request this (JObj [("type", JStr "state")])].
Proof.
  intros W this.
  assert (Hcheck : @validateNanoRpcUrl W (cfg_get (config this) "NANO_RPC_URL") false = inr tt)
    by (vm_compute; reflexivity).
  split; [exact Hcheck|].
  exact (proj1 (proj2 (proj2 (@rpc_methods_check_then_call W this JNull
                                (JObj [("type", JStr "state")])) Hcheck))).
Defined.

(** ** Hook registration *)

Lemma run_before_hooks_snoc (hooks : list Hook) (hook : Hook) :
  forall (index : nat) (context : WorkGenerationHookContext),
    run_before_hooks index (hooks ++ [hook]) context
    = match outcome (run_before_hooks index hooks context) with
      | inl e => (trace (run_before_hooks index hooks context), inl e)
      | inr c =>
          ((trace (run_before_hooks index hooks context)
            ++ [EvBeforeHook (index + length hooks) c])%list,
           match hook c with
           | inl e => inl e
           | inr c' => inr c'
           end)
      end.
Proof.
  induction hooks as [|h hooks IH]; intros index context.
  - rewrite app_nil_l, run_before_hooks_cons. simpl. rewrite Nat.add_0_r.
    now destruct (hook context).
  - rewrite <- app_comm_cons, !run_before_hooks_cons.
    destruct (h context) as [e | context1]; [reflexivity|].
    rewrite IH. simpl.
    destruct (outcome (run_before_hooks (S index) hooks context1)); [reflexivity|].
    now rewrite Nat.add_succ_r.
Qed.

Lemma run_after_hooks_snoc (hooks : list Hook) (hook : Hook) (w : jsval) :
  forall (index : nat) (context : WorkGenerationHookContext),
    run_after_hooks index (hooks ++ [hook]) w context
    = match outcome (run_after_hooks index hooks w context) with
      | inl e => (trace (run_after_hooks index hooks w context), inl e)
      | inr c =>
          ((trace (run_after_hooks index hooks w context)
            ++ [EvAfterHook (index + length hooks) (with_work c w)])%list,
           match hook (with_work c w) with
           | inl e => inl e
           | inr c' => inr c'
           end)
      end.
Proof.
  induction hooks as [|h hooks IH]; intros index context.
  - rewrite app_nil_l, run_after_hooks_cons. simpl. rewrite Nat.add_0_r.
    now destruct (hook (with_work context w)).
  - rewrite <- app_comm_cons, !run_after_hooks_cons.
    destruct (h (with_work context w)) as [e | context1]; [reflexivity|].
    rewrite IH. simpl.
    destruct (outcome (run_after_hooks (S index) hooks w context1)); [reflexivity|].
    now rewrite Nat.add_succ_r.
Qed.

(** X19. Registering a hook appends it and changes nothing else: the
    configuration, the other registry and the generator are as before,
    and in a build the earlier hooks run exactly as they did, after
    which the new hook is called, last, with the context they left - or
    not at all, when one of them threw. *)
Theorem hook_registration_appends (this : Helper) (hook : Hook) :
  let b := snd (onBeforeWorkGeneration hook this) in
  let a := snd (onAfterWorkGeneration hook this) in
  fst (onBeforeWorkGeneration hook this) = inr tt /\
  fst (onAfterWorkGeneration hook this) = inr tt /\
  config b = config this /\ config a = config this /\
  afterWorkGenerationHooks b = afterWorkGenerationHooks this /\
  beforeWorkGenerationHooks a = beforeWorkGenerationHooks this /\
  workGenerator b = workGenerator this /\ workGenerator a = workGenerator this /\
  (forall (index : nat) (context : WorkGenerationHookContext),
     let earlier := run_before_hooks index (beforeWorkGenerationHooks this) context in
     run_before_hooks index (beforeWorkGenerationHooks b) context
     = match outcome earlier with
       | inl e => (trace earlier, inl e)
       | inr c =>
           ((trace earlier
             ++ [EvBeforeHook (index + length (beforeWorkGenerationHooks this)) c])%list,
            hook c)
       end) /\
  (forall (index : nat) (w : jsval) (context : WorkGenerationHookContext),
     let earlier := run_after_hooks index (afterWorkGenerationHooks this) w context in
     run_after_hooks index (afterWorkGenerationHooks a) w context
     = match outcome earlier with
       | inl e => (trace earlier, inl e)
       | inr c =>
           ((trace earlier
             ++ [EvAfterHook (index + length (afterWorkGenerationHooks this))
                   (with_work c w)])%list,
            hook (with_work c w))
       end).
Proof.
  intros b a. repeat split.
  - intros index context earlier. unfold b, earlier. simpl.
    rewrite run_before_hooks_snoc.
    destruct (outcome (run_before_hooks _ _ _)) as [e | c]; [reflexivity|].
    now destruct (hook c).
  - intros index w context earlier. unfold a, earlier. simpl.
    rewrite run_after_hooks_snoc.
    destruct (outcome (run_after_hooks _ _ _ _)) as [e | c]; [reflexivity|].
    now destruct (hook (with_work c w)).
Qed.

(** ** A custom generator replaces the work RPC *)

Lemma run_after_hooks_only_hooks (hooks : list Hook) (w : jsval) :
  forall (index : nat) (context : WorkGenerationHookContext),
    forallb is_after_hook (trace (run_after_hooks index hooks w context)) = true.
Proof.
  induction hooks as [|hook rest IH]; intros index context; [reflexivity|].
  rewrite run_after_hooks_cons.
  destruct (hook (with_work context w)) as [e | context']; [reflexivity|].
  simpl. apply IH.
Qed.

Lemma createBlock_custom_no_work_rpc `{World} (config : gmap string jsval)
    (representative balance link previous : jsval)
    (before after : list Hook) (generator : WorkGenerator) :
  forallb (fun ev => negb (is_fetch ev))
    (trace (createBlock config representative balance link previous before after
              (Some generator))) = true.
Proof.
  rewrite createBlock_unfold, bind_trace, forallb_app.
  apply andb_true_intro. split.
  - apply (forallb_weaken is_before_hook); [now intros [] | apply run_before_hooks_only_hooks].
  - destruct (outcome (run_before_hooks _ _ _)) as [e | context]; [reflexivity|].
    cbv beta. rewrite bind_trace, forallb_app, workGenerate_custom_cases.
    apply andb_true_intro. split; [now destruct (generator previous)|].
    match goal with |- context [outcome ?m] => destruct (outcome m) as [e | w] end;
      [reflexivity|].
    cbv beta. rewrite bind_trace, forallb_app. apply andb_true_intro. split.
    + apply (forallb_weaken is_after_hook); [now intros [] | apply run_after_hooks_only_hooks].
    + destruct (outcome (run_after_hooks _ _ _ _)) as [e | c]; [reflexivity|].
      cbv beta. destruct (truthy w); [|reflexivity].
      cbv zeta. rewrite bind_trace. simpl. now destruct (N_createBlock _ _).
Qed.

Lemma bind_emit {B} (ev : event) (k : unit -> M B) :
  bind (emit ev) k = (ev :: trace (k tt), outcome (k tt)).
Proof. unfold bind, emit. now destruct (k tt). Qed.

(** X20. Once a custom generator is set, [generateSendBlock] never asks
    the network for work: no [work_generate] request appears in its log,
    whatever the configuration, the replies and the hooks; every HTTP
    request it makes is the [account_info] lookup. *)
Theorem custom_generator_replaces_work_rpc `{World} (this : Helper)
    (generator : WorkGenerator) (params : GenerateSendBlockParams) :
  let this' := snd (setCustomWorkGenerator generator this) in
  let run := generateSendBlock this' params in
  fst (setCustomWorkGenerator generator this) = inr tt /\
  config this' = config this /\
  forallb (fun ev => negb (is_work_rpc ev)) (trace run) = true /\
  length (List.filter is_fetch (trace run)) <= 1.
Proof.
  intros this' run.
  split; [reflexivity|]. split; [reflexivity|].
  assert (Hshape : trace run = []
                   \/ exists (ev : event) (rest : list event),
                        trace run = ev :: rest /\
                        is_work_request ev = false /\
                        forallb (fun ev => negb (is_fetch ev)) rest = true).
  { unfold run, generateSendBlock.
    destruct (validateNanoRpcUrl _ false) as [e | []] eqn:Hrpc; [now left|].
    destruct (validateNanoAccountPrivateKey _ false) as [e | []]; [now left|].
    destruct (validateNanoWorkGenerationUrl _ false) as [e | []]; [now left|].
    destruct (getAccount _) as [e | sourceAccount]; [now left|].
    rewrite !bind_lift_inr. right.
    assert (Hreq : trace (getAccountInfo this' (JStr sourceAccount))
                   = [account_info_request this' (JStr sourceAccount)]).
    { unfold getAccountInfo. rewrite Hrpc, bind_lift_inr. apply nanoRpcCall_trace. }
    rewrite bind_trace, Hreq.
    eexists _, _. split; [reflexivity|]. split; [reflexivity|].
    destruct (outcome (getAccountInfo _ _)) as [e | info]; [reflexivity|].
    cbv beta.
    destruct (get_prop info "balance") as [e | currentBalance];
      [reflexivity | rewrite bind_lift_inr].
    destruct (get_prop info "frontier") as [e | frontier];
      [reflexivity | rewrite bind_lift_inr].
    destruct (truthy frontier); [|reflexivity].
    cbn [negb]. rewrite bind_emit. cbn [trace fst forallb is_fetch negb andb].
    destruct (calculateBalanceAfterSend _ _) as [e | b];
      [reflexivity | rewrite bind_lift_inr].
    destruct (get_prop info "representative") as [e | r];
      [reflexivity | rewrite bind_lift_inr].
    apply createBlock_custom_no_work_rpc. }
  assert (Hcount : forall rest : list event,
             forallb (fun ev => negb (is_fetch ev)) rest = true ->
             List.filter is_fetch rest = []).
  { induction rest as [|ev rest IH]; [reflexivity|]. simpl. intros Hall.
    apply andb_prop in Hall as [Hev Hrest].
    destruct (is_fetch ev); [discriminate | exact (IH Hrest)]. }
  destruct Hshape as [-> | [ev [rest [-> [Hev Hrest]]]]].
  - split; [reflexivity | simpl; lia].
  - split.
    + simpl. unfold is_work_rpc at 1. rewrite Hev, andb_false_r. simpl.
      apply (forallb_weaken (fun ev => negb (is_fetch ev))); [|exact Hrest].
      intros ev' Hev'. unfold is_work_rpc.
      now destruct (is_fetch ev').
    + simpl. rewrite (Hcount _ Hrest). destruct (is_fetch ev); simpl; lia.
Qed.

(** ** Construction *)

(** X21. What a new instance shows.  Built from a configuration object
    that names a work-generation URL, [getConfig] returns that object
    without its private key and nothing else changed; when the object
    has no work-generation URL (absent, [undefined] or [null]) the
    property is filled from the RPC URL; built without an argument, the
    instance has an empty configuration, no hooks, no generator and no
    key. *)
Theorem constructor_getConfig (c : gmap string jsval) :
  (forall v : jsval,
     c !! "NANO_WORK_GENERATION_URL" = Some v -> v <> JUndefined -> v <> JNull ->
     getConfig (constructor (Some c)) = delete "NANO_ACCOUNT_PRIVATE_KEY" c) /\
  (nullish_coalesce (cfg_get c "NANO_WORK_GENERATION_URL") JNull = JNull ->
     getConfig (constructor (Some c))
     = <["NANO_WORK_GENERATION_URL" := cfg_get c "NANO_RPC_URL"]>
         (delete "NANO_ACCOUNT_PRIVATE_KEY" c)) /\
  cfg_get (config (constructor (Some c))) NANO_ACCOUNT_PRIVATE_KEY_PROPERTY
  = cfg_get c NANO_ACCOUNT_PRIVATE_KEY_PROPERTY /\
  cfg_get (config (constructor (Some c))) "NANO_RPC_URL" = cfg_get c "NANO_RPC_URL" /\
  getConfig (constructor None) = ∅ /\
  credential_state (constructor None) = NoKey.
Proof.
  split; [|split; [|split; [|split; [|split]]]].
  - intros v Hv Hundef Hnull. unfold getConfig, constructor, cfg_get. simpl.
    rewrite Hv. simpl.
    assert (nullish_coalesce v (default JUndefined (c !! "NANO_RPC_URL")) = v) as ->
      by (destruct v; try reflexivity; [now destruct Hundef | now destruct Hnull]).
    now rewrite (insert_id c _ _ Hv).
  - intros Hnullish. unfold getConfig, constructor. simpl.
    assert (nullish_coalesce (cfg_get c "NANO_WORK_GENERATION_URL")
                             (cfg_get c "NANO_RPC_URL")
            = cfg_get c "NANO_RPC_URL") as ->
      by (destruct (cfg_get c "NANO_WORK_GENERATION_URL"); try reflexivity;
          discriminate Hnullish).
    apply delete_insert_ne. discriminate.
  - simpl. apply cfg_get_insert_ne. discriminate.
  - simpl. apply cfg_get_insert_ne. discriminate.
  - unfold getConfig. simpl. apply delete_empty.
  - reflexivity.
Qed.

Lemma constructor_getConfig_witness :
  let c : gmap string jsval :=
    <["NANO_WORK_GENERATION_URL" := JStr "https://sample-nano-work-generation-url"]>
      sample_config in
  c !! "NANO_WORK_GENERATION_URL" = Some (JStr "https://sample-nano-work-generation-url") /\
  getConfig (constructor (Some c)) = delete "NANO_ACCOUNT_PRIVATE_KEY" c.
Proof.
  intros c.
  assert (Hc : c !! "NANO_WORK_GENERATION_URL"
               = Some (JStr "https://sample-nano-work-generation-url"))
    by apply lookup_insert_eq.
  split; [exact Hc|].
  refine (proj1 (constructor_getConfig c) _ Hc _ _); discriminate.
Defined.
